(** * WizardHat [plot.Lines]: the stacked line plotter

    A shallow embedding of [wizardhat/plot/plot.py].  Python floats and
    NumPy arrays are idealised as real numbers and lists of reals: the
    arithmetic of the handlers and of [update_plot] is carried out in
    [R]: there is no NaN or infinity, and the rounding of single
    operations is left out.  Two effects of the floating-point formats
    that show on ordinary inputs are modelled: the quality value, which
    binary64 computes as exactly 10.0 for a large deviation (see
    [quality_category]), and the float32 in which a uniform is stored
    (see [float32] and [stored_scale]).
    The objects the class owns (the gloo program, the text visuals, the
    data sources) are records; a method that mutates [self] is a
    function from the state to a [result] holding the new state or the
    exception it leaves with. *)

From Stdlib Require Import String Ascii.
From Stdlib Require Import Reals Lra Lia ZArith Bool List.
Import ListNotations.
Open Scope R_scope.
Set Warnings "-register-all".

(** ** Python values, exceptions, and [dict.update] *)

Module Py.

Inductive exn : Type :=
| TypeError (msg : string)
| ValueError (msg : string)
| IndexError (msg : string)
| KeyError (key : string)
| StopIteration.

Inductive result (A : Type) : Type :=
| Ok (a : A)
| Raise (e : exn).
Arguments Ok {A} a.
Arguments Raise {A} e.

Definition bind {A B} (m : result A) (k : A -> result B) : result B :=
  match m with
  | Ok a => k a
  | Raise e => Raise e
  end.

(** The values that can reach the plotter as configuration. *)
Inductive value : Type :=
| PNone
| PBool (b : bool)
| PInt (z : Z)
| PFloat (x : R)
| PStr (s : string)
| PList (items : list value)
| PTuple (items : list value)
| PDict (items : list (value * value)).

(** A dict is kept as the sequence of its bindings in the order they
    were made; a later binding of a key shadows the earlier ones.
    Lookups in this program are by string key only. *)
Definition dict : Type := list (value * value).

Definition is_key (k : string) (kv : value * value) : bool :=
  match fst kv with
  | PStr s => String.eqb s k
  | _ => false
  end.

Definition getitem (d : dict) (k : string) : result value :=
  match find (is_key k) (rev d) with
  | Some kv => Ok (snd kv)
  | None => Raise (KeyError k)
  end.

Definition is_mapping (v : value) : bool :=
  match v with
  | PDict _ => true
  | _ => false
  end.

(** [hash(v)] succeeds. *)
Fixpoint hashable (v : value) : bool :=
  match v with
  | PList _ | PDict _ => false
  | PTuple items => forallb hashable items
  | _ => true
  end.

Definition chars (s : string) : list value :=
  map (fun c => PStr (String c EmptyString)) (list_ascii_of_string s).

(** [list(iter(v))], or [None] where [iter(v)] raises TypeError. *)
Definition iter (v : value) : option (list value) :=
  match v with
  | PList items | PTuple items => Some items
  | PStr s => Some (chars s)
  | PDict items => Some (map fst items)
  | _ => None
  end.

(** The sequence branch of [dict.update]: every element must itself
    be a sequence of exactly two items, a hashable key and a value. *)
Fixpoint merge_from_seq2 (d : dict) (items : list value) : result dict :=
  match items with
  | [] => Ok d
  | item :: rest =>
      match iter item with
      | None =>
          Raise (TypeError
            "cannot convert dictionary update sequence element to a sequence")
      | Some [k; v] =>
          if hashable k then merge_from_seq2 (d ++ [(k, v)]) rest
          else Raise (TypeError "unhashable type")
      | Some _ =>
          Raise (ValueError
            "dictionary update sequence element has length other than 2")
      end
  end.

(** [d.update(other)]: a mapping is merged, anything else is iterated
    as a sequence of key-value pairs. *)
Definition update (d : dict) (other : value) : result dict :=
  match other with
  | PDict items => Ok (d ++ items)
  | _ =>
      match iter other with
      | None => Raise (TypeError "object is not iterable")
      | Some items => merge_from_seq2 d items
      end
  end.

(** [seq[i]] on a Python sequence: a negative index counts from the
    end. *)
Definition index {A} (l : list A) (i : Z) : result A :=
  let n := Z.of_nat (length l) in
  let j := if (i <? 0)%Z then (i + n)%Z else i in
  if ((0 <=? j) && (j <? n))%Z%bool then
    match nth_error l (Z.to_nat j) with
    | Some a => Ok a
    | None => Raise (IndexError "list index out of range")
    end
  else Raise (IndexError "list index out of range").

(** [v[i]] for an integer [i]. *)
Definition subscript (v : value) (i : Z) : result value :=
  match v with
  | PList items | PTuple items => index items i
  | PStr s => index (chars s) i
  | _ => Raise (TypeError "object is not subscriptable")
  end.

(** A value used as a scalar operand of NumPy arithmetic. *)
Definition as_real (v : value) : result R :=
  match v with
  | PInt z => Ok (IZR z)
  | PFloat x => Ok x
  | PBool b => Ok (if b then 1 else 0)
  | _ => Raise (TypeError "unsupported operand type")
  end.

(** [itertools.cycle(range(n))]: [pos] is the element the next call
    of [next] yields. *)
Record cycle : Type := { cyc_len : nat; cyc_pos : nat }.

Definition cycle_range (n : nat) : cycle :=
  {| cyc_len := n; cyc_pos := 0 |}.

Definition next (c : cycle) : result (nat * cycle) :=
  if Nat.eqb (cyc_len c) 0 then Raise StopIteration
  else Ok (cyc_pos c,
           {| cyc_len := cyc_len c;
              cyc_pos := Nat.modulo (S (cyc_pos c)) (cyc_len c) |}).

End Py.

Import Py.

Notation "x <- m ;; k" := (bind m (fun x => k))
  (at level 61, m at next level, right associativity).
Notation "' pat <- m ;; k" := (bind m (fun x => match x with pat => k end))
  (at level 61, pat pattern, m at next level, right associativity).

(** ** The NumPy operations the plotter uses *)

Module Np.

(** A two-dimensional array: [rows] lists the rows, each of [ncols]
    entries.  The column count is kept apart so that an array without
    rows still has a shape. *)
Record matrix : Type := { ncols : nat; rows : list (list R) }.

Definition nrows (m : matrix) : nat := length (rows m).

Definition well_formed (m : matrix) : Prop :=
  Forall (fun r => length r = ncols m) (rows m).

(** [m[:, k:]] *)
Definition slice_cols_from (k : nat) (m : matrix) : matrix :=
  {| ncols := ncols m - k; rows := map (skipn k) (rows m) |}.

(** [m[-n:]] for [n > 0]: the last [n] rows, all of them when there
    are fewer. *)
Definition last_rows (n : nat) (m : matrix) : matrix :=
  {| ncols := ncols m; rows := skipn (nrows m - n) (rows m) |}.

Definition column (j : nat) (m : matrix) : list R :=
  map (fun r => nth j r 0) (rows m).

Definition sum (l : list R) : R := fold_right Rplus 0 l.

Definition mean (l : list R) : R := sum l / INR (length l).

(** [np.std]: the square root of the mean squared deviation from the
    mean. *)
Definition std (l : list R) : R :=
  sqrt (mean (map (fun x => Rsqr (Rabs (x - mean l))) l)).

(** [m.mean(axis=0)] and [np.std(m, axis=0)]: one entry per column. *)
Definition mean_axis0 (m : matrix) : list R :=
  map (fun j => mean (column j m)) (seq 0 (ncols m)).

Definition std_axis0 (m : matrix) : list R :=
  map (fun j => std (column j m)) (seq 0 (ncols m)).

Fixpoint zip_with {A B C} (f : A -> B -> C) (l : list A) (l' : list B)
  : list C :=
  match l, l' with
  | a :: l, b :: l' => f a b :: zip_with f l l'
  | _, _ => []
  end.

(** [m - v]: the vector is broadcast along the rows. *)
Definition sub_rows (m : matrix) (v : list R) : matrix :=
  {| ncols := ncols m; rows := map (fun r => zip_with Rminus r v) (rows m) |}.

(** [m / s] for a scalar [s]. *)
Definition div_scalar (m : matrix) (s : R) : matrix :=
  {| ncols := ncols m; rows := map (map (fun x => x / s)) (rows m) |}.

(** [m.T] *)
Definition transpose (m : matrix) : matrix :=
  {| ncols := nrows m; rows := map (fun j => column j m) (seq 0 (ncols m)) |}.

(** [m.ravel()]: row after row. *)
Definition ravel (m : matrix) : list R := concat (rows m).

(** [np.sign] *)
Definition sign (x : R) : R :=
  if Rlt_dec x 0 then -1 else if Rlt_dec 0 x then 1 else 0.

(** Conversion of a float to an integer drops the fractional part,
    rounding toward zero. *)
Definition trunc (x : R) : Z :=
  if Rle_dec 0 x then Int_part x else (- Int_part (- x))%Z.

(** [np.int32(x)]: a value that does not fit in 32 bits comes out as
    the smallest int32. *)
Definition int32 (x : R) : Z :=
  let t := trunc x in
  if ((- 2147483648 <=? t) && (t <=? 2147483647))%Z%bool then t
  else (- 2147483648)%Z.

(** [np.arange(n)], [np.repeat(l, n)] and [np.tile(l, n)] *)
Definition arange (n : nat) : list nat := seq 0 n.

Definition repeat_each {A} (l : list A) (n : nat) : list A :=
  flat_map (fun a => repeat a n) l.

Definition tile {A} (l : list A) (n : nat) : list A :=
  concat (repeat l n).

(** [np.c_[a, b, c]] of three vectors, as float32 rows. *)
Fixpoint c_ (a b c : list nat) : list (R * R * R) :=
  match a, b, c with
  | x :: a, y :: b, z :: c => (INR x, INR y, INR z) :: c_ a b c
  | _, _, _ => []
  end.

(** [np.repeat(v, n, axis=0)] of a configuration value: the rows of a
    sequence are repeated, a scalar is repeated as it is. *)
Definition repeat_axis0 (v : value) (n : nat) : list value :=
  match v with
  | PList items | PTuple items => repeat_each items n
  | _ => repeat v n
  end.

End Np.

(** ** The plotter *)

(** A data source, [data.Data]: the attributes the plotter reads.  The
    sample matrix [unstructured] is owned by the source and grows
    outside the plotter; [update_plot] receives the snapshot it reads
    as an argument. *)
Record Data : Type := {
  ch_names : list string;
  n_chan : nat;
  n_samples : nat
}.

(** The [data] argument of the constructor: one source (an object with
    [ch_names]) or a list of sources. *)
Inductive data_arg : Type :=
| One (d : Data)
| Several (ds : list Data).

Inductive label_text : Type :=
| Literal (s : string)
| Fixed2 (x : R).   (* ['%.2f' % x] *)

(** [visuals.TextVisual]; the font size is 12 unless given. *)
Record TextVisual : Type := {
  text : label_text;
  bold : bool;
  color : value;
  font_size : Z
}.

Definition new_TextVisual (t : string) : TextVisual :=
  {| text := Literal t; bold := true; color := PStr "white";
     font_size := 12 |}.

(** [gloo.Program]: the attribute buffers and uniforms that are set. *)
Record Program : Type := {
  a_position : list R;
  a_color : list value;
  a_index : list (R * R * R);
  u_scale : R * R;
  u_size : nat * nat;
  u_n : nat
}.

(** [program['a_position'].set_data(d)]: gloo's [set_data] makes the
    array the contents of the buffer and resizes the buffer to it. *)
Definition set_a_position (p : Program) (d : list R) : Program :=
  {| a_position := d; a_color := a_color p; a_index := a_index p;
     u_scale := u_scale p; u_size := u_size p; u_n := u_n p |}.

(** [program['u_scale'] = s].  The state keeps the pair as the handler
    computed it; what the float32 uniform holds of it is
    [stored_scale]. *)
Definition set_u_scale (p : Program) (s : R * R) : Program :=
  {| a_position := a_position p; a_color := a_color p;
     a_index := a_index p; u_scale := s; u_size := u_size p;
     u_n := u_n p |}.

Record Lines : Type := {
  data : list Data;
  _cycle : cycle;
  _data : Data;
  _n_lines : nat;
  _n_points : nat;
  params : dict;
  program : Program;
  _names : list TextVisual;
  _quality : list TextVisual
}.

Definition with_data (st : Lines) (c : cycle) (d : Data) : Lines :=
  {| data := data st; _cycle := c; _data := d;
     _n_lines := _n_lines st; _n_points := _n_points st;
     params := params st; program := program st;
     _names := _names st; _quality := _quality st |}.

Definition with_program (st : Lines) (p : Program) : Lines :=
  {| data := data st; _cycle := _cycle st; _data := _data st;
     _n_lines := _n_lines st; _n_points := _n_points st;
     params := params st; program := p;
     _names := _names st; _quality := _quality st |}.

Definition with_labels (st : Lines) (names quality : list TextVisual)
  : Lines :=
  {| data := data st; _cycle := _cycle st; _data := _data st;
     _n_lines := _n_lines st; _n_points := _n_points st;
     params := params st; program := program st;
     _names := names; _quality := quality |}.

Definition config_error : exn :=
  TypeError "plot_params not a dict or key-value pairs list".

(** Replace the entry at position [i]; the objects of a Python list
    are mutated in place, which leaves every other entry alone. *)
Fixpoint list_set {A} (l : list A) (i : nat) (a : A) : list A :=
  match l, i with
  | [], _ => []
  | _ :: l, O => a :: l
  | x :: l, S i => x :: list_set l i a
  end.

(** [for l in ls: body], leaving at the first exception. *)
Fixpoint for_each {S} (ls : list nat) (body : nat -> S -> result S) (s : S)
  : result S :=
  match ls with
  | [] => Ok s
  | l :: ls => s' <- body l s ;; for_each ls body s'
  end.

(** The elementwise map of [update_plot] from a standard deviation to
    its quality category: [np.int32(np.tanh((sd - 30) / 15)*5 + 5)].
    In binary64 the tanh of a large argument is so close to 1 that the
    sum is exactly 10.0; this is the case from a deviation of 304 on
    (an argument of 18.27, where 1 - tanh is below 2.8e-16).  Below
    that the exact value stands for the computed one. *)
Definition quality_category (sd : R) : Z :=
  Np.int32 (if Rle_dec 304 sd then 10
            else tanh ((sd - 30) / 15) * 5 + 5).

Section Plotter.

(** [seaborn.color_palette(name, n)], an external function. *)
Variable color_palette : string -> nat -> list value.

Definition default_params (n_lines : nat) : dict :=
  [ (PStr "title", PStr "Plotter");
    (PStr "font_size", PInt 48);
    (PStr "scale", PInt 500);
    (PStr "palette", PList (color_palette "RdBu_r" n_lines));
    (PStr "quality_palette", PList (rev (color_palette "RdYlGn" 11))) ].

(** The plotting parameters of [__init__]: the defaults, updated with
    [plot_params]; a TypeError of the update is raised anew with the
    message of [config_error]. *)
Definition Lines_params (n_lines : nat) (plot_params : value) : result dict :=
  let plot_params :=
    match plot_params with
    | PNone => PDict []
    | v => v
    end in
  match update (default_params n_lines) plot_params with
  | Ok d => Ok d
  | Raise (TypeError _) => Raise config_error
  | Raise e => Raise e
  end.

Definition _set_program_params (n_lines n_points : nat) (color : list value)
  : Program :=
  let index :=
    Np.c_ (Np.repeat_each (Np.repeat_each (Np.arange 1) n_lines) n_points)
          (Np.repeat_each (Np.tile (Np.arange n_lines) 1) n_points)
          (Np.tile (Np.arange n_points) n_lines) in
  let position := repeat 0 (n_lines * n_points) in
  {| a_position := position;
     a_color := color;
     a_index := index;
     u_scale := (1, 1);
     u_size := (n_lines, 1%nat);
     u_n := n_points |}.

(** [Lines.__init__].  Opening the window, the timer and the GL state
    of [_init_plot] have no part in the state modelled here. *)
Definition Lines_init (d : data_arg) (plot_params : value) : result Lines :=
  let data :=
    match d with
    | One x => [x]
    | Several ds => ds
    end in
  let cyc := cycle_range (length data) in
  '(i, cyc) <- next cyc ;;
  cur <- index data (Z.of_nat i) ;;
  let n_lines := n_chan cur in
  let n_points := n_samples cur in
  params <- Lines_params n_lines plot_params ;;
  palette <- getitem params "palette" ;;
  let color := Np.repeat_axis0 palette n_points in
  let program := _set_program_params n_lines n_points color in
  Ok {| data := data; _cycle := cyc; _data := cur;
        _n_lines := n_lines; _n_points := n_points;
        params := params; program := program;
        _names := map new_TextVisual (ch_names cur);
        _quality := map (fun _ => new_TextVisual "") (ch_names cur) |}.

End Plotter.

(** [on_key_press]; [name] is [event.key.name]. *)
Definition on_key_press (name : string) (st : Lines) : result Lines :=
  st <- (if String.eqb name "D" then
           '(i, cyc) <- next (_cycle st) ;;
           d <- index (data st) (Z.of_nat i) ;;
           Ok (with_data st cyc d)
         else Ok st) ;;
  if existsb (String.eqb name) ["+"; "-"]%string then
    let dx := if String.eqb name "+" then - 0.05 else 0.05 in
    let '(scale_x, scale_y) := u_scale (program st) in
    let scale_x_new := scale_x * exp (1.0 * dx) in
    let scale_y_new := scale_y * exp (0.0 * dx) in
    Ok (with_program st
          (set_u_scale (program st) (Rmax 1 scale_x_new, Rmax 1 scale_y_new)))
  else Ok st.

(** [on_mouse_wheel]; [delta] is [event.delta]. *)
Definition on_mouse_wheel (delta : R * R) (st : Lines) : result Lines :=
  let dx := Np.sign (snd delta) * 0.05 in
  let '(scale_x, scale_y) := u_scale (program st) in
  let scale_x_new := scale_x * exp (0.0 * dx) in
  let scale_y_new := scale_y * exp (2.0 * dx) in
  Ok (with_program st
        (set_u_scale (program st)
           (Rmax 1 scale_x_new, Rmax 0.01 scale_y_new))).

(** A number that can be a colour channel: an integer or a float
    between 0 and 1. *)
Definition channel_ok (v : value) : bool :=
  match v with
  | PInt z => ((0 <=? z) && (z <=? 1))%Z
  | PFloat x =>
      if Rle_dec 0 x then (if Rle_dec x 1 then true else false) else false
  | _ => false
  end.

(** [t.color = v] on a text visual: the setter makes a colour of [v]
    and raises ValueError when it cannot.  A sequence must have three
    or four channels, each a number between 0 and 1.  A string names a
    colour of vispy's table; the table is not part of the model and
    every name is taken as known.  Other values are refused (arrays of
    several colours, which the setter would take, are not modelled). *)
Definition set_color (v : value) : result value :=
  match v with
  | PList items | PTuple items =>
      if (Nat.eqb (length items) 3 || Nat.eqb (length items) 4)%bool then
        if forallb channel_ok items then Ok v
        else Raise (ValueError "Color values must be between 0 and 1")
      else Raise (ValueError "Color must have 3 or 4 channels")
  | PStr _ => Ok v
  | _ => Raise (ValueError "Color must be a sequence or a name")
  end.

(** One turn of the loop of [update_plot] over the labels. *)
Definition update_labels (params : dict) (sd : list R) (co : list Z) (l : nat)
  (labels : list TextVisual * list TextVisual)
  : result (list TextVisual * list TextVisual) :=
  let '(names, quality) := labels in
  sd_l <- index sd (Z.of_nat l) ;;
  q <- index quality (Z.of_nat l) ;;
  qp <- getitem params "quality_palette" ;;
  co_l <- index co (Z.of_nat l) ;;
  c <- subscript qp co_l ;;
  c_q <- set_color c ;;
  let q := {| text := Fixed2 sd_l; bold := bold q; color := c_q;
              font_size := 12 + co_l |} in
  n <- index names (Z.of_nat l) ;;
  qp <- getitem params "quality_palette" ;;
  c <- subscript qp co_l ;;
  c_n <- set_color c ;;
  let n := {| text := text n; bold := bold n; color := c_n;
              font_size := 12 + co_l |} in
  Ok (list_set names l n, list_set quality l q).

(** [update_plot]; [unstructured] is the sample matrix the active
    source [self._data] holds at the time of the call. *)
Definition update_plot (unstructured : Np.matrix) (st : Lines)
  : result Lines :=
  let plot_data := Np.slice_cols_from 1 unstructured in
  scale_v <- getitem (params st) "scale" ;;
  scale <- as_real scale_v ;;
  let plot_data :=
    Np.div_scalar (Np.sub_rows plot_data (Np.mean_axis0 plot_data)) scale in
  let sd := rev (Np.std_axis0 (Np.last_rows 256 plot_data)) in
  let sd := map (fun s => s * scale) sd in
  let co := map quality_category sd in
  '(names, quality) <-
    for_each (seq 0 (_n_lines st)) (update_labels (params st) sd co)
      (_names st, _quality st) ;;
  let plot_data := Np.ravel (Np.transpose plot_data) in
  Ok (with_program (with_labels st names quality)
        (set_a_position (program st) plot_data)).

(** The events of the canvas. *)
Inductive event : Type :=
| KeyPress (name : string)
| MouseWheel (delta : R * R)
| Timer (unstructured : Np.matrix).

Definition handle (e : event) (st : Lines) : result Lines :=
  match e with
  | KeyPress name => on_key_press name st
  | MouseWheel delta => on_mouse_wheel delta st
  | Timer m => update_plot m st
  end.

Fixpoint run (es : list event) (st : Lines) : result Lines :=
  match es with
  | [] => Ok st
  | e :: es => st' <- handle e st ;; run es st'
  end.

Definition time_scale (st : Lines) : R := fst (u_scale (program st)).
Definition amplitude_scale (st : Lines) : R := snd (u_scale (program st)).

(** ** A plotter to try the statements on *)

Definition sample_palette (name : string) (n : nat) : list value :=
  map (fun i => PTuple [PFloat (INR i / INR n); PInt 0; PInt 1]) (seq 0 n).

Definition sample_source : Data :=
  {| ch_names := ["TP9"; "AF7"]%string; n_chan := 2; n_samples := 3 |}.

(** ** Vocabulary of the statements *)

(** The events that change the view transform: '+', '-' and the wheel. *)
Definition scale_event (e : event) : Prop :=
  match e with
  | KeyPress name => name = "+"%string \/ name = "-"%string
  | MouseWheel _ => True
  | Timer _ => False
  end.


(** The real number whose integer part [update_plot] takes. *)
Definition quality_value (sd : R) : R := tanh ((sd - 30) / 15) * 5 + 5.


(** Rounding to the nearest integer, a tie going to the even one. *)
Definition round_nearest (x : R) : Z :=
  let f := Int_part x in
  if Rlt_dec (frac_part x) (1 / 2) then f
  else if Rlt_dec (1 / 2) (frac_part x) then (f + 1)%Z
  else if Z.even f then f else (f + 1)%Z.


(** An element that [dict.update] takes as a key-value pair: a
    sequence of two items, the first of them hashable. *)
Definition as_pair (item : value) : option (value * value) :=
  match iter item with
  | Some [k; v] => if hashable k then Some (k, v) else None
  | _ => None
  end.

Definition pairs_of (items : list value) : dict :=
  flat_map (fun item =>
              match as_pair item with
              | Some kv => [kv]
              | None => []
              end) items.

(** The list [self.data] the constructor works with. *)
Definition sources (d : data_arg) : list Data :=
  match d with
  | One x => [x]
  | Several ds => ds
  end.

(** Channel [c] of a snapshot in the words of the specification: the
    leading index column is dropped, so the channel is column [c + 1];
    it is centered by its mean over all rows and divided by the scale. *)
Definition channel (m : Np.matrix) (c : nat) : list R :=
  map (fun r => nth (S c) r 0) (Np.rows m).

Definition normalised (m : Np.matrix) (scale : R) (c : nat) : list R :=
  map (fun x => (x - Np.mean (channel m c)) / scale) (channel m c).

(** The array [update_plot] normalises the snapshot to. *)
Definition plot_data_of (m : Np.matrix) (s : R) : Np.matrix :=
  Np.div_scalar
    (Np.sub_rows (Np.slice_cols_from 1 m)
       (Np.mean_axis0 (Np.slice_cols_from 1 m))) s.

(** The deviations of a frame, in the order the loop reads them. *)
Definition frame_sd (m : Np.matrix) (s : R) : list R :=
  map (fun x => x * s)
    (rev (Np.std_axis0 (Np.last_rows 256 (plot_data_of m s)))).

(** The vertex amplitudes, channel after channel. *)
Definition vertex_spec (m : Np.matrix) (scale : R) : list R :=
  flat_map (normalised m scale) (seq 0 (Np.ncols m - 1)).

(** The standard deviation shown for channel [c]: that of its last 256
    normalised samples, scaled back. *)
Definition channel_sd (m : Np.matrix) (scale : R) (c : nat) : R :=
  Np.std (skipn (Np.nrows m - 256) (normalised m scale c)) * scale.

(** A palette whose every entry the colour setter takes: sequences of
    three or four channels between 0 and 1, as seaborn makes them. *)
Definition rgb (c : value) : Prop :=
  exists items,
    (c = PList items \/ c = PTuple items) /\
    (length items = 3%nat \/ length items = 4%nat) /\
    forallb channel_ok items = true.

(** What a plotter must hold for a frame to go through: a number other
    than zero as scale, a quality palette of 11 colours with channels
    between 0 and 1, and a pair of labels for each line.  (A scale of
    zero, like a snapshot without rows, makes NumPy compute NaN, which
    [R] does not have; the statements about whole frames leave both
    out.) *)
Definition ready (st : Lines) : Prop :=
  (exists s, (v <- getitem (params st) "scale" ;; as_real v) = Ok s /\
             s <> 0) /\
  (exists pal, getitem (params st) "quality_palette" = Ok (PList pal) /\
               length pal = 11%nat /\ Forall rgb pal) /\
  (_n_lines st <= length (_names st))%nat /\
  (_n_lines st <= length (_quality st))%nat.

(** The scale of a plotter, 0 where the parameter is not a number. *)
Definition scale_of (st : Lines) : R :=
  match (v <- getitem (params st) "scale" ;; as_real v) with
  | Ok s => s
  | Raise _ => 0
  end.

(** The quality palette of a plotter as a list. *)
Definition quality_palette_of (st : Lines) : list value :=
  match getitem (params st) "quality_palette" with
  | Ok (PList pal) => pal
  | _ => []
  end.

(** The shape a snapshot has when it comes from a source of the form
    the plotter was built for. *)
Definition fits (st : Lines) (m : Np.matrix) : Prop :=
  Np.well_formed m /\ Np.ncols m = S (_n_lines st) /\
  Np.nrows m = _n_points st /\ (0 < Np.nrows m)%nat.

(** What no event changes. *)
Definition same_frame (st0 st : Lines) : Prop :=
  data st = data st0 /\
  cyc_len (_cycle st) = cyc_len (_cycle st0) /\
  params st = params st0 /\
  _n_lines st = _n_lines st0 /\
  _n_points st = _n_points st0 /\
  map text (_names st) = map text (_names st0) /\
  length (_quality st) = length (_quality st0).

(** The labels a frame leaves for a line whose standard deviation is
    [sd]: the quality label shows it, both take colour and size from its
    category, the name label keeps its text. *)
Definition relabel_quality (pal : list value) (sd : R) (q : TextVisual)
  : TextVisual :=
  {| text := Fixed2 sd; bold := bold q;
     color := nth (Z.to_nat (quality_category sd)) pal PNone;
     font_size := 12 + quality_category sd |}.

Definition relabel_name (pal : list value) (sd : R) (n : TextVisual)
  : TextVisual :=
  {| text := text n; bold := bold n;
     color := nth (Z.to_nat (quality_category sd)) pal PNone;
     font_size := 12 + quality_category sd |}.

(** A plotter over a single source [x]: the cycle has one element and
    has come round to it. *)
Definition single (x : Data) (st : Lines) : Prop :=
  data st = [x] /\
  _cycle st = {| cyc_len := 1; cyc_pos := 0 |} /\
  _data st = x.

(** Snapshots for the plotter to try the statements on: one of the
    form the sample source promises, and one with a single row. *)
Definition sample_snapshot : Np.matrix :=
  {| Np.ncols := 3;
     Np.rows := [[0; 1; 10]; [1; 2; 20]; [2; 3; 60]] |}.

Definition short_snapshot : Np.matrix :=
  {| Np.ncols := 3; Np.rows := [[0; 1; 10]] |}.

(** ** Layout of the labels: [on_resize] *)

(** What [on_resize] sets: the viewport of the canvas and of every text
    visual, and the position [pos] of each name label and of each
    quality label, listed in the order of [_names] and [_quality]. *)
Record Layout : Type := {
  viewport : R * R * R * R;
  names_pos : list (R * R);
  quality_pos : list (R * R)
}.

(** The result of [on_resize]: the division by [self._n_lines] raises
    ZeroDivisionError when there are no lines. *)
Inductive resize_result : Type :=
| Placed (lay : Layout)
| ZeroDivisionError.

(** [for l, t in enumerate(labels): t.pos = (size[0] * x, ((l + 0.5)
    / n_lines) * size[1])]; [None] where the division raises. *)
Fixpoint place_labels {A} (labels : list A) (l : nat) (x : R)
  (size : R * R) (n_lines : nat) : option (list (R * R)) :=
  match labels with
  | [] => Some []
  | _ :: rest =>
      if Nat.eqb n_lines 0 then None
      else
        match place_labels rest (S l) x size n_lines with
        | Some ps =>
            Some ((fst size * x,
                   ((INR l + 0.5) / INR n_lines) * snd size) :: ps)
        | None => None
        end
  end.

(** [on_resize]; [size] is [self.size] and [physical_size] is
    [self.physical_size]. *)
Definition on_resize (size physical_size : R * R) (st : Lines)
  : resize_result :=
  let vp := (0, 0, fst physical_size, snd physical_size) in
  match place_labels (_names st) 0 0.025 size (_n_lines st) with
  | None => ZeroDivisionError
  | Some nps =>
      match place_labels (_quality st) 0 0.975 size (_n_lines st) with
      | None => ZeroDivisionError
      | Some qps =>
          Placed {| viewport := vp; names_pos := nps; quality_pos := qps |}
      end
  end.

(** ** More vocabulary *)

(** What a press of 'D' leaves alone: everything but the cycle and the
    active source. *)
Definition same_but_source (st0 st : Lines) : Prop :=
  data st = data st0 /\
  _n_lines st = _n_lines st0 /\
  _n_points st = _n_points st0 /\
  params st = params st0 /\
  program st = program st0 /\
  _names st = _names st0 /\
  _quality st = _quality st0.

(** The last 256 samples of channel [c], as they are in the snapshot. *)
Definition recent (m : Np.matrix) (c : nat) : list R :=
  skipn (Np.nrows m - 256) (channel m c).

(** A snapshot in which no channel moves: every row carries the same
    channel values as row [r0]. *)
Definition flat (m : Np.matrix) (r0 : list R) : Prop :=
  Forall (fun r => skipn 1 r = skipn 1 r0) (Np.rows m).

(** Wheel events by direction. *)
Definition wheel_up (e : event) : Prop :=
  match e with
  | MouseWheel delta => 0 < snd delta
  | _ => False
  end.

Definition wheel_down (e : event) : Prop :=
  match e with
  | MouseWheel delta => snd delta < 0
  | _ => False
  end.

(** A snapshot with a constant second channel, to try statements on. *)
Definition flat_snapshot : Np.matrix :=
  {| Np.ncols := 3;
     Np.rows := [[0; 7; 4]; [1; 7; 4]; [2; 7; 4]] |}.

(** A snapshot that lacks a channel. *)
Definition narrow_snapshot : Np.matrix :=
  {| Np.ncols := 2; Np.rows := [[0; 1]; [1; 2]; [2; 3]] |}.

(** A second source of the form of the first. *)
Definition other_source : Data :=
  {| ch_names := ["TP10"; "AF8"]%string; n_chan := 2; n_samples := 3 |}.

(** ** The float32 of a uniform *)

(** Conversion to float32, the format in which gloo stores a uniform:
    the nearest number with a significand of 24 bits, a tie going to
    the even one; below 2^-126 the spacing stays at 2^-149.  There is
    no infinity in [R]: numbers from 2^128 on are outside the model. *)
Definition exponent (x : R) : Z :=
  Z.max (- 126) (Int_part (ln (Rabs x) / ln 2)).

Definition float32 (x : R) : R :=
  let ulp := powerRZ 2 (exponent x - 23) in
  IZR (round_nearest (x / ulp)) * ulp.

(** The numbers the uniform [u_scale] holds.  The handlers compute the
    new scale in binary64, idealised here as exact, and the program
    stores it as float32. *)
Definition stored_scale (st : Lines) : R * R :=
  (float32 (time_scale st), float32 (amplitude_scale st)).

(** ** The view transform: key presses and the wheel *)

Lemma run_app (es es' : list event) (st : Lines) :
  run (es ++ es') st = (st' <- run es st ;; run es' st').
Proof.
  revert st; induction es as [|e es IH]; intros st; simpl; [reflexivity|].
  destruct (handle e st) as [st1|x]; simpl; [apply IH | reflexivity].
Qed.

Lemma exp_zero_times (dx : R) : exp (0.0 * dx) = 1.
Proof. replace (0.0 * dx) with 0 by lra. apply exp_0. Qed.

Lemma on_key_press_plus (st : Lines) :
  on_key_press "+" st =
  Ok (with_program st
        (set_u_scale (program st)
           (Rmax 1 (time_scale st * exp (- 0.05)),
            Rmax 1 (amplitude_scale st)))).
Proof.
  unfold on_key_press, time_scale, amplitude_scale; simpl.
  destruct (u_scale (program st)) as [x y]; simpl.
  rewrite exp_zero_times.
  replace (1.0 * - 0.05) with (- 0.05) by lra.
  replace (y * 1) with y by lra.
  reflexivity.
Qed.

Lemma on_key_press_minus (st : Lines) :
  on_key_press "-" st =
  Ok (with_program st
        (set_u_scale (program st)
           (Rmax 1 (time_scale st * exp 0.05),
            Rmax 1 (amplitude_scale st)))).
Proof.
  unfold on_key_press, time_scale, amplitude_scale; simpl.
  destruct (u_scale (program st)) as [x y]; simpl.
  rewrite exp_zero_times.
  replace (1.0 * 0.05) with 0.05 by lra.
  replace (y * 1) with y by lra.
  reflexivity.
Qed.

Lemma on_mouse_wheel_scale (delta : R * R) (st : Lines) :
  on_mouse_wheel delta st =
  Ok (with_program st
        (set_u_scale (program st)
           (Rmax 1 (time_scale st),
            Rmax 0.01
              (amplitude_scale st
               * exp (2.0 * (Np.sign (snd delta) * 0.05)))))).
Proof.
  unfold on_mouse_wheel, time_scale, amplitude_scale.
  destruct (u_scale (program st)) as [x y]; simpl.
  rewrite exp_zero_times.
  replace (x * 1) with x by lra.
  reflexivity.
Qed.

Lemma exp_ge_1 (x : R) : 0 <= x -> 1 <= exp x.
Proof. intros Hx. pose proof (exp_ineq1_le x). lra. Qed.

Lemma exp_lt_1 (x : R) : x < 0 -> exp x < 1.
Proof. intros Hx. rewrite <- exp_0. now apply exp_increasing. Qed.

(** [k] presses of '-' from a time scale that is at least 1 multiply it
    by [exp (0.05 * k)]; nothing is floored. *)
Lemma minus_presses (k : nat) : forall st : Lines,
  1 <= time_scale st ->
  exists st', run (repeat (KeyPress "-") k) st = Ok st' /\
              time_scale st' = time_scale st * exp (0.05 * INR k).
Proof.
  induction k as [|k IH]; intros st Hst.
  - exists st; split; [reflexivity|].
    simpl. replace (0.05 * 0) with 0 by lra. rewrite exp_0. lra.
  - cbn [repeat run handle]. rewrite on_key_press_minus. cbn [bind].
    set (st1 := with_program _ _).
    assert (H1 : time_scale st1 = time_scale st * exp 0.05).
    { unfold st1, time_scale at 1; simpl. apply Rmax_right.
      pose proof (exp_ge_1 0.05). nra. }
    destruct (IH st1) as [st' [Hrun Hts]].
    { rewrite H1. pose proof (exp_ge_1 0.05). nra. }
    exists st'; split; [exact Hrun|].
    rewrite Hts, H1, S_INR, Rmult_assoc, <- exp_plus.
    f_equal. f_equal. lra.
Qed.

(** [k] presses of '+' from a time scale [exp (0.05 * (k + c))] with
    [0 <= c] bring it down to [exp (0.05 * c)]. *)
Lemma plus_presses (k : nat) : forall (st : Lines) (c : R),
  0 <= c ->
  time_scale st = exp (0.05 * (INR k + c)) ->
  exists st', run (repeat (KeyPress "+") k) st = Ok st' /\
              time_scale st' = exp (0.05 * c).
Proof.
  induction k as [|k IH]; intros st c Hc Hst.
  - exists st; split; [reflexivity|].
    rewrite Hst. f_equal. simpl. lra.
  - cbn [repeat run handle]. rewrite on_key_press_plus. cbn [bind].
    set (st1 := with_program _ _).
    assert (H1 : time_scale st1 = exp (0.05 * (INR k + c))).
    { unfold st1, time_scale at 1; simpl.
      rewrite Hst, <- exp_plus, S_INR.
      replace (0.05 * (INR k + 1 + c) + - 0.05) with (0.05 * (INR k + c))
        by lra.
      apply Rmax_right, exp_ge_1. pose proof (pos_INR k). nra. }
    exact (IH st1 c Hc H1).
Qed.

(** '+' at a time scale of 1 is absorbed by the floor. *)
Lemma plus_presses_floor (k : nat) : forall st : Lines,
  time_scale st = 1 ->
  exists st', run (repeat (KeyPress "+") k) st = Ok st' /\
              time_scale st' = 1.
Proof.
  induction k as [|k IH]; intros st Hst.
  - exists st; split; [reflexivity | exact Hst].
  - cbn [repeat run handle]. rewrite on_key_press_plus. cbn [bind].
    apply IH. unfold time_scale at 1; simpl. rewrite Hst.
    apply Rmax_left. pose proof (exp_lt_1 (- 0.05)). lra.
Qed.

Lemma Lines_init_u_scale cp d pp st :
  Lines_init cp d pp = Ok st -> u_scale (program st) = (1, 1).
Proof.
  unfold Lines_init. intros H.
  destruct (next _) as [[i cyc]|]; simpl in H; [|discriminate].
  destruct (index _ _) as [cur|]; simpl in H; [|discriminate].
  destruct (Lines_params _ _ _) as [ps|]; simpl in H; [|discriminate].
  destruct (getitem _ _) as [pal|]; simpl in H; [|discriminate].
  injection H as <-. reflexivity.
Qed.

(** C1, as the claim states it, fails: from the freshly constructed
    plotter one press of '+' is absorbed by the floor at 1 and the press
    of '-' that follows raises the time scale by more than 0.05. *)
Lemma roundtrip_plus_minus_fails :
  exists st0 st1,
    Lines_init sample_palette (One sample_source) PNone = Ok st0 /\
    run [KeyPress "+"; KeyPress "-"] st0 = Ok st1 /\
    time_scale st0 = 1 /\
    time_scale st1 - time_scale st0 > 0.05.
Proof.
  eexists; eexists. split; [reflexivity|].
  cbn [run handle]. rewrite on_key_press_plus. cbn [bind].
  rewrite on_key_press_minus. cbn [bind].
  split; [reflexivity|]. split; [reflexivity|].
  unfold time_scale; cbn.
  rewrite (Rmax_left 1 (1 * exp (- 0.05)))
    by (pose proof (exp_lt_1 (- 0.05)); lra).
  assert (H : 1 + 0.05 < exp 0.05) by (apply exp_ineq1; lra).
  rewrite Rmax_right by lra. lra.
Qed.

(** C1 (amended): from a freshly constructed plotter with the default
    configuration, for every [k], pressing '-' [k] times and then '+'
    [k] times returns the time-axis scale to its original value 1;
    pressing '+' first is absorbed by the floor at 1, so '+' [k] times
    and then '-' [k] times leaves the time scale at [exp (0.05 * k)]. *)
Theorem roundtrip_minus_plus
  (cp : string -> nat -> list value) (d : data_arg) (st0 : Lines) (k : nat)
  (Hinit : Lines_init cp d PNone = Ok st0) :
  (exists st1,
     run (repeat (KeyPress "-") k ++ repeat (KeyPress "+") k) st0 = Ok st1 /\
     time_scale st1 = time_scale st0) /\
  (exists st2,
     run (repeat (KeyPress "+") k ++ repeat (KeyPress "-") k) st0 = Ok st2 /\
     time_scale st2 = exp (0.05 * INR k)).
Proof.
  assert (H0 : time_scale st0 = 1).
  { unfold time_scale. now rewrite (Lines_init_u_scale _ _ _ _ Hinit). }
  split.
  - destruct (minus_presses k st0) as [sta [Ha Hta]]; [lra|].
    destruct (plus_presses k sta 0) as [stb [Hb Htb]]; [lra | |].
    { rewrite Hta, H0. rewrite Rmult_1_l. f_equal. lra. }
    exists stb. split.
    + rewrite run_app, Ha. exact Hb.
    + rewrite Htb, H0. replace (0.05 * 0) with 0 by lra. apply exp_0.
  - destruct (plus_presses_floor k st0 H0) as [sta [Ha Hta]].
    destruct (minus_presses k sta) as [stb [Hb Htb]]; [lra|].
    exists stb. split.
    + rewrite run_app, Ha. exact Hb.
    + rewrite Htb, Hta. lra.
Qed.

Lemma roundtrip_minus_plus_witness :
  exists st0,
    Lines_init sample_palette (One sample_source) PNone = Ok st0 /\
    exists st1,
      run (repeat (KeyPress "-") 3 ++ repeat (KeyPress "+") 3) st0 = Ok st1 /\
      time_scale st1 = time_scale st0.
Proof.
  eexists. split; [reflexivity|].
  apply (roundtrip_minus_plus sample_palette (One sample_source) _ 3
           eq_refl).
Defined.

(** C5, at the input where the code departs from it: after one notch of
    the wheel downwards the amplitude scale is below 1, and the press
    of '+' that follows sets it to 1. *)
Theorem key_press_resets_amplitude :
  exists st0 st1 st2,
    Lines_init sample_palette (One sample_source) PNone = Ok st0 /\
    on_mouse_wheel (0, -1) st0 = Ok st1 /\
    on_key_press "+" st1 = Ok st2 /\
    0.01 <= amplitude_scale st1 < 1 /\
    amplitude_scale st2 = 1.
Proof.
  eexists; eexists; eexists. split; [reflexivity|].
  rewrite on_mouse_wheel_scale. split; [reflexivity|].
  rewrite on_key_press_plus. split; [reflexivity|].
  unfold amplitude_scale; cbn.
  assert (Hs : Np.sign (-1) = -1).
  { unfold Np.sign. destruct (Rlt_dec (-1) 0); [reflexivity | lra]. }
  rewrite Hs.
  pose proof (exp_lt_1 (2.0 * (-1 * 0.05))) as Hlt.
  pose proof (exp_ineq1_le (2.0 * (-1 * 0.05))) as Hge.
  assert (Hm : Rmax 0.01 (1 * exp (2.0 * (-1 * 0.05)))
               = exp (2.0 * (-1 * 0.05))).
  { rewrite Rmax_right; lra. }
  rewrite Hm. split; [lra|].
  apply Rmax_left. lra.
Qed.

(** Over exact numbers, '+', '-' and the wheel keep the time scale at
    1 or above and the amplitude scale at 0.01 or above. *)
Lemma scale_events_floor
  (cp : string -> nat -> list value) (d : data_arg) (pp : value)
  (st0 : Lines) (es : list event)
  (Hinit : Lines_init cp d pp = Ok st0)
  (Hes : Forall scale_event es) :
  exists st, run es st0 = Ok st /\
             1 <= time_scale st /\ 0.01 <= amplitude_scale st.
Proof.
  assert (H0 : 1 <= time_scale st0 /\ 0.01 <= amplitude_scale st0).
  { unfold time_scale, amplitude_scale.
    rewrite (Lines_init_u_scale _ _ _ _ Hinit); simpl. lra. }
  clear Hinit. revert st0 H0.
  induction Hes as [|e es He _ IH]; intros st0 H0.
  - exists st0. split; [reflexivity | exact H0].
  - cbn [run].
    assert (Hstep : exists st1, handle e st0 = Ok st1 /\
              1 <= time_scale st1 /\ 0.01 <= amplitude_scale st1).
    { destruct e as [name|delta|m]; cbn [handle]; [| |contradiction].
      - destruct He as [-> | ->];
          [rewrite on_key_press_plus | rewrite on_key_press_minus];
          eexists; (split; [reflexivity|]);
          unfold time_scale, amplitude_scale; cbn.
        + split; [apply Rmax_l|].
          apply Rle_trans with 1; [lra | apply Rmax_l].
        + split; [apply Rmax_l|].
          apply Rle_trans with 1; [lra | apply Rmax_l].
      - rewrite on_mouse_wheel_scale.
        eexists; (split; [reflexivity|]).
        unfold time_scale, amplitude_scale; cbn.
        split; apply Rmax_l. }
    destruct Hstep as [st1 [-> H1]]. cbn [bind]. exact (IH st1 H1).
Qed.


(** ** The quality category *)

Lemma tanh_exp (x : R) :
  tanh x * (exp x + exp (- x)) = exp x - exp (- x).
Proof.
  pose proof (exp_pos x). pose proof (exp_pos (- x)).
  unfold tanh, sinh, cosh. field. lra.
Qed.

Lemma tanh_bounds (x : R) : -1 < tanh x < 1.
Proof.
  pose proof (exp_pos x). pose proof (exp_pos (- x)).
  pose proof (tanh_exp x). split; nra.
Qed.

Lemma quality_value_bounds (sd : R) : 0 < quality_value sd < 10.
Proof.
  unfold quality_value. pose proof (tanh_bounds ((sd - 30) / 15)). lra.
Qed.

Lemma trunc_nonneg (x : R) : 0 <= x -> Np.trunc x = Int_part x.
Proof.
  intros Hx. unfold Np.trunc. destruct (Rle_dec 0 x); [reflexivity | lra].
Qed.

Lemma Int_part_bounds (x : R) (lo hi : Z) :
  IZR lo <= x < IZR hi -> (lo <= Int_part x < hi)%Z.
Proof.
  intros [Hlo Hhi]. destruct (base_Int_part x) as [H1 H2]. split.
  - apply Z.lt_succ_r, lt_IZR. rewrite succ_IZR. lra.
  - apply lt_IZR. lra.
Qed.

Lemma Int_part_IZR (z : Z) : Int_part (IZR z) = z.
Proof. symmetry. apply Int_part_spec. lra. Qed.

(** Below the saturation the category is the integer part of the
    exact value. *)
Lemma quality_category_below (sd : R) :
  sd < 304 ->
  quality_category sd = Int_part (quality_value sd) /\
  (0 <= quality_category sd <= 9)%Z.
Proof.
  intros Hsd. pose proof (quality_value_bounds sd) as Hv.
  assert (Hip : (0 <= Int_part (quality_value sd) < 10)%Z).
  { apply Int_part_bounds. simpl. lra. }
  assert (Heq : quality_category sd = Int_part (quality_value sd)).
  { unfold quality_category, Np.int32.
    destruct (Rle_dec 304 sd) as [H|_]; [lra|].
    fold (quality_value sd). rewrite trunc_nonneg by lra.
    destruct (Z.leb_spec (-2147483648) (Int_part (quality_value sd)));
      [|lia].
    destruct (Z.leb_spec (Int_part (quality_value sd)) 2147483647);
      [reflexivity | lia]. }
  rewrite Heq. split; [reflexivity | lia].
Qed.

(** From a deviation of 304 on the category is 10. *)
Lemma quality_category_saturated (sd : R) :
  304 <= sd -> quality_category sd = 10%Z.
Proof.
  intros Hsd. unfold quality_category, Np.int32.
  destruct (Rle_dec 304 sd) as [_|H]; [|lra].
  rewrite trunc_nonneg by lra. rewrite Int_part_IZR. reflexivity.
Qed.

Lemma quality_category_range (sd : R) :
  (0 <= quality_category sd <= 10)%Z.
Proof.
  destruct (Rle_dec 304 sd) as [H|H].
  - rewrite (quality_category_saturated sd H). lia.
  - destruct (quality_category_below sd) as [_ Hr]; [lra | lia].
Qed.





(** A palette of 11 entries has one at the position of every
    category. *)
Lemma palette_lookup (sd : R) (palette : list value) :
  length palette = 11%nat ->
  exists c, subscript (PList palette) (quality_category sd) = Ok c /\
            nth_error palette (Z.to_nat (quality_category sd)) = Some c.
Proof.
  intros Hlen. pose proof (quality_category_range sd) as Hr.
  destruct (nth_error palette (Z.to_nat (quality_category sd)))
    as [c|] eqn:Hc.
  - exists c. split; [|reflexivity].
    unfold subscript, index. rewrite Hlen.
    destruct (Z.ltb_spec (quality_category sd) 0); [lia|].
    destruct (Z.leb_spec 0 (quality_category sd)); [|lia].
    destruct (Z.ltb_spec (quality_category sd) (Z.of_nat 11)); [|lia].
    simpl. rewrite Hc. reflexivity.
  - apply nth_error_None in Hc. lia.
Qed.

(** C7: for every standard deviation the quality category is an integer
    between 0 and 10, and indexing a quality palette of 11 entries with
    it yields one of its entries. *)
Theorem category_in_palette (sd : R) (palette : list value)
  (Hlen : length palette = 11%nat) :
  (0 <= quality_category sd <= 10)%Z /\
  exists c, subscript (PList palette) (quality_category sd) = Ok c /\
            nth_error palette (Z.to_nat (quality_category sd)) = Some c.
Proof.
  split.
  - apply quality_category_range.
  - now apply palette_lookup.
Qed.

Lemma category_in_palette_witness :
  (0 <= quality_category 0 <= 10)%Z /\
  exists c, subscript (PList (sample_palette "RdYlGn" 11))
              (quality_category 0) = Ok c /\
            nth_error (sample_palette "RdYlGn" 11)
              (Z.to_nat (quality_category 0)) = Some c.
Proof.
  apply (category_in_palette 0 (sample_palette "RdYlGn" 11)).
  reflexivity.
Defined.

(** ** Construction and its configuration *)

Lemma as_pair_inv (item : value) (k v : value) :
  as_pair item = Some (k, v) ->
  iter item = Some [k; v] /\ hashable k = true.
Proof.
  unfold as_pair. destruct (iter item) as [[|a [|b [|c l]]]|]; try discriminate.
  destruct (hashable a) eqn:Hh; [|discriminate].
  intros H; injection H as <- <-. auto.
Qed.

Lemma merge_pairs (items : list value) : forall d : dict,
  Forall (fun item => as_pair item <> None) items ->
  merge_from_seq2 d items = Ok (d ++ pairs_of items).
Proof.
  induction items as [|item items IH]; intros d Hall.
  - simpl. now rewrite app_nil_r.
  - inversion Hall as [|? ? Hitem Hrest]; subst.
    destruct (as_pair item) as [[k v]|] eqn:Hp; [|congruence].
    destruct (as_pair_inv _ _ _ Hp) as [Hi Hh].
    cbn [merge_from_seq2]. rewrite Hi, Hh, (IH _ Hrest).
    unfold pairs_of at 2; cbn [flat_map]. rewrite Hp.
    fold (pairs_of items). now rewrite <- app_assoc.
Qed.

Lemma merge_pairs_then_scalar (items : list value) (bad : value)
  (rest : list value) : forall d : dict,
  Forall (fun item => as_pair item <> None) items ->
  iter bad = None ->
  exists msg, merge_from_seq2 d (items ++ bad :: rest) = Raise (TypeError msg).
Proof.
  induction items as [|item items IH]; intros d Hall Hbad.
  - cbn [app merge_from_seq2]. rewrite Hbad. eexists; reflexivity.
  - inversion Hall as [|? ? Hitem Hrest]; subst.
    destruct (as_pair item) as [[k v]|] eqn:Hp; [|congruence].
    destruct (as_pair_inv _ _ _ Hp) as [Hi Hh].
    cbn [app merge_from_seq2]. rewrite Hi, Hh. now apply IH.
Qed.

(** With at least one source, construction gets as far as the plotting
    parameters, with the first source active. *)
Lemma Lines_init_first cp (d : data_arg) (pp : value) (x : Data)
  (ds : list Data) :
  sources d = x :: ds ->
  Lines_init cp d pp =
  (ps <- Lines_params cp (n_chan x) pp ;;
   palette <- getitem ps "palette" ;;
   Ok {| data := x :: ds;
         _cycle := {| cyc_len := length (x :: ds);
                      cyc_pos := Nat.modulo 1 (length (x :: ds)) |};
         _data := x;
         _n_lines := n_chan x; _n_points := n_samples x;
         params := ps;
         program := _set_program_params (n_chan x) (n_samples x)
                      (Np.repeat_axis0 palette (n_samples x));
         _names := map new_TextVisual (ch_names x);
         _quality := map (fun _ => new_TextVisual "") (ch_names x) |}).
Proof.
  intros Hs. unfold Lines_init. fold (sources d). rewrite Hs. reflexivity.
Qed.

Lemma sources_nonempty (d : data_arg) :
  d <> Several [] -> exists x ds, sources d = x :: ds.
Proof.
  destruct d as [x|[|x ds]]; intros Hd; simpl; eauto. congruence.
Qed.

(** C3, as the claim states it, fails: a list of key-value pairs is not
    a mapping, and the plotter is constructed with its entries
    overriding the defaults. *)
Lemma pairs_list_accepted :
  exists st,
    is_mapping (PList [PTuple [PStr "scale"; PInt 100]]) = false /\
    Lines_init sample_palette (One sample_source)
      (PList [PTuple [PStr "scale"; PInt 100]]) = Ok st /\
    getitem (params st) "scale" = Ok (PInt 100).
Proof.
  eexists. split; [reflexivity|]. split; reflexivity.
Qed.

(** C3 (amended): constructing a Lines plotter over at least one data
    source fails with the TypeError "plot_params not a dict or
    key-value pairs list", and no plotter results, for every
    [plot_params] other than None that cannot be iterated (a number or
    a boolean), and for every list in which key-value pairs are
    followed by an element that cannot be iterated; a list of
    key-value pairs is accepted like a mapping and its entries are
    added to the defaults. *)
Theorem config_error_raised
  (cp : string -> nat -> list value) (d : data_arg) (pp : value)
  (pairs : list value) (bad : value) (rest : list value)
  (Hd : d <> Several [])
  (Hpp : pp <> PNone) (Hiter : iter pp = None)
  (Hpairs : Forall (fun item => as_pair item <> None) pairs)
  (Hbad : iter bad = None) :
  Lines_init cp d pp = Raise config_error /\
  Lines_init cp d (PList (pairs ++ bad :: rest)) = Raise config_error /\
  forall n, Lines_params cp n (PList pairs)
            = Ok (default_params cp n ++ pairs_of pairs).
Proof.
  destruct (sources_nonempty d Hd) as [x [ds Hs]].
  split; [|split].
  - rewrite (Lines_init_first cp d pp x ds Hs).
    unfold Lines_params, update.
    destruct pp; try discriminate; try congruence; reflexivity.
  - rewrite (Lines_init_first cp d _ x ds Hs).
    unfold Lines_params, update; cbn [iter].
    destruct (merge_pairs_then_scalar pairs bad rest
                (default_params cp (n_chan x)) Hpairs Hbad) as [msg ->].
    reflexivity.
  - intros n. unfold Lines_params, update; cbn [iter].
    now rewrite merge_pairs.
Qed.

Lemma config_error_raised_witness :
  Lines_init sample_palette (One sample_source) (PInt 5)
    = Raise config_error /\
  Lines_init sample_palette (One sample_source)
    (PList ([PTuple [PStr "scale"; PInt 100]] ++ PInt 3 :: []))
    = Raise config_error /\
  forall n, Lines_params sample_palette n
              (PList [PTuple [PStr "scale"; PInt 100]])
            = Ok (default_params sample_palette n
                    ++ pairs_of [PTuple [PStr "scale"; PInt 100]]).
Proof.
  apply (config_error_raised sample_palette (One sample_source) (PInt 5)
           [PTuple [PStr "scale"; PInt 100]] (PInt 3) []).
  - discriminate.
  - discriminate.
  - reflexivity.
  - repeat constructor. discriminate.
  - reflexivity.
Defined.

(** ** Arrays: columns, transposition and flattening *)

Lemma nth_zip_with_minus (a b : list R) (j : nat) :
  (j < length a)%nat -> (j < length b)%nat ->
  nth j (Np.zip_with Rminus a b) 0 = nth j a 0 - nth j b 0.
Proof.
  revert b j. induction a as [|x a IH]; intros [|y b] [|j] Ha Hb;
    simpl in *; try lia; [reflexivity|].
  apply IH; lia.
Qed.

Lemma length_zip_with {A B C} (f : A -> B -> C) (a : list A) (b : list B) :
  length (Np.zip_with f a b) = Nat.min (length a) (length b).
Proof.
  revert b. induction a as [|x a IH]; intros [|y b]; simpl; auto.
Qed.

Lemma nth_skipn_1 (r : list R) (j : nat) : nth j (skipn 1 r) 0 = nth (S j) r 0.
Proof. destruct r as [|x r]; [destruct j|]; reflexivity. Qed.

Lemma nth_map_seq {A} (f : nat -> A) (n j : nat) (d : A) :
  (j < n)%nat -> nth j (map f (seq 0 n)) d = f j.
Proof.
  intros Hj.
  rewrite (nth_indep _ d (f 0%nat)) by now rewrite length_map, length_seq.
  rewrite map_nth, seq_nth by lia. reflexivity.
Qed.

Lemma nth_div (l : list R) (s : R) (j : nat) :
  nth j (map (fun x => x / s) l) 0 = nth j l 0 / s.
Proof.
  replace 0 with (0 / s) at 1 by (unfold Rdiv; ring).
  apply (map_nth (fun x => x / s)).
Qed.

(** The columns of the sliced snapshot are the channels. *)
Lemma column_slice (m : Np.matrix) (j : nat) :
  Np.column j (Np.slice_cols_from 1 m) = channel m j.
Proof.
  unfold Np.column, channel; simpl. rewrite map_map.
  apply map_ext. intros r. apply nth_skipn_1.
Qed.

Lemma column_plot_data (m : Np.matrix) (s : R) (j : nat) :
  Np.well_formed m -> (j < Np.ncols m - 1)%nat ->
  Np.column j (plot_data_of m s) = normalised m s j.
Proof.
  intros Hwf Hj. unfold Np.column, plot_data_of, normalised, channel; simpl.
  rewrite !map_map. apply map_ext_in. intros r Hr.
  assert (Hlen : length r = Np.ncols m).
  { unfold Np.well_formed in Hwf. rewrite Forall_forall in Hwf. auto. }
  rewrite nth_div. f_equal.
  rewrite nth_zip_with_minus.
  - f_equal; [destruct r as [|x r]; [destruct j|]; reflexivity|].
    unfold Np.mean_axis0. cbn [Np.ncols Np.slice_cols_from].
    rewrite nth_map_seq by exact Hj.
    now rewrite column_slice.
  - destruct r as [|x r]; simpl in *; lia.
  - unfold Np.mean_axis0. now rewrite length_map, length_seq.
Qed.

Lemma length_concat_uniform {A} (ls : list (list A)) (n : nat) :
  Forall (fun l => length l = n) ls ->
  length (concat ls) = (length ls * n)%nat.
Proof.
  induction 1 as [|l ls Hl _ IH]; simpl; [reflexivity|].
  rewrite length_app, IH, Hl. reflexivity.
Qed.

Lemma nth_concat_uniform {A} (ls : list (list A)) (n : nat) (d : A) :
  Forall (fun l => length l = n) ls ->
  forall c t, (t < n)%nat ->
  nth (c * n + t) (concat ls) d = nth t (nth c ls []) d.
Proof.
  induction 1 as [|l ls Hl _ IH]; intros c t Ht.
  - simpl. destruct (c * n + t)%nat, c, t; reflexivity.
  - destruct c as [|c]; simpl.
    + rewrite app_nth1 by lia. reflexivity.
    + rewrite app_nth2 by lia.
      replace (n + c * n + t - length l)%nat with (c * n + t)%nat by lia.
      now apply IH.
Qed.

(** The flattened transpose is the channels laid end to end. *)
Lemma ravel_transpose (m : Np.matrix) (s : R) :
  Np.well_formed m ->
  Np.ravel (Np.transpose (plot_data_of m s)) = vertex_spec m s.
Proof.
  intros Hwf. unfold Np.ravel, Np.transpose, vertex_spec; simpl.
  rewrite flat_map_concat_map. f_equal.
  apply map_ext_in. intros j Hj. apply in_seq in Hj.
  apply column_plot_data; [exact Hwf | lia].
Qed.

Lemma length_normalised (m : Np.matrix) (s : R) (c : nat) :
  length (normalised m s c) = Np.nrows m.
Proof. unfold normalised, channel, Np.nrows. now rewrite !length_map. Qed.

Lemma length_vertex_spec (m : Np.matrix) (s : R) :
  length (vertex_spec m s) = ((Np.ncols m - 1) * Np.nrows m)%nat.
Proof.
  unfold vertex_spec. rewrite flat_map_concat_map.
  rewrite (length_concat_uniform _ (Np.nrows m)).
  - now rewrite length_map, length_seq.
  - apply Forall_map, Forall_forall. intros c _. apply length_normalised.
Qed.

Lemma nth_vertex_spec (m : Np.matrix) (s : R) (c t : nat) :
  (c < Np.ncols m - 1)%nat -> (t < Np.nrows m)%nat ->
  nth (c * Np.nrows m + t) (vertex_spec m s) 0 =
  (nth (S c) (nth t (Np.rows m) []) 0 - Np.mean (channel m c)) / s.
Proof.
  intros Hc Ht. unfold vertex_spec. rewrite flat_map_concat_map.
  rewrite (nth_concat_uniform _ (Np.nrows m)); [| |exact Ht].
  - rewrite (nth_map_seq (normalised m s)) by exact Hc.
    unfold normalised.
    rewrite (nth_indep _ 0 ((0 - Np.mean (channel m c)) / s))
      by (rewrite length_map; unfold channel; now rewrite length_map).
    rewrite (map_nth (fun x => (x - Np.mean (channel m c)) / s)).
    unfold channel.
    rewrite (map_nth (fun r => nth (S c) r 0) (Np.rows m) []).
    destruct c; reflexivity.
  - apply Forall_map, Forall_forall. intros j _. apply length_normalised.
Qed.

Lemma nrows_plot_data (m : Np.matrix) (s : R) :
  Np.nrows (plot_data_of m s) = Np.nrows m.
Proof. unfold Np.nrows, plot_data_of; simpl. now rewrite !length_map. Qed.

(** The deviations of [update_plot], before they are reversed. *)
Lemma std_last_rows (m : Np.matrix) (s : R) (j : nat) :
  Np.well_formed m -> (j < Np.ncols m - 1)%nat ->
  Np.std (Np.column j (Np.last_rows 256 (plot_data_of m s))) * s
  = channel_sd m s j.
Proof.
  intros Hwf Hj. unfold channel_sd.
  rewrite <- (column_plot_data m s j Hwf Hj).
  unfold Np.column, Np.last_rows; cbn [Np.rows].
  rewrite nrows_plot_data, skipn_map. reflexivity.
Qed.

(** ** The loop over the labels *)

Lemma index_nat {A} (l : list A) (i : nat) (a : A) :
  nth_error l i = Some a -> index l (Z.of_nat i) = Ok a.
Proof.
  intros H. unfold index.
  assert (Hi : (i < length l)%nat) by (apply nth_error_Some; congruence).
  destruct (Z.ltb_spec (Z.of_nat i) 0); [lia|].
  destruct (Z.leb_spec 0 (Z.of_nat i)); [|lia].
  destruct (Z.ltb_spec (Z.of_nat i) (Z.of_nat (length l))); [|lia].
  simpl. now rewrite Nat2Z.id, H.
Qed.

Lemma index_nat_inv {A} (l : list A) (i : nat) (a : A) :
  index l (Z.of_nat i) = Ok a -> nth_error l i = Some a.
Proof.
  unfold index.
  destruct (Z.ltb_spec (Z.of_nat i) 0); [lia|].
  destruct (_ && _)%bool; [|discriminate].
  rewrite Nat2Z.id. destruct (nth_error l i); [|discriminate].
  now intros [= ->].
Qed.

Lemma length_list_set {A} (l : list A) (i : nat) (a : A) :
  length (list_set l i a) = length l.
Proof.
  revert i; induction l as [|x l IH]; intros [|i]; simpl; auto.
Qed.

Lemma nth_error_list_set_same {A} (l : list A) (i : nat) (a : A) :
  (i < length l)%nat -> nth_error (list_set l i a) i = Some a.
Proof.
  revert i; induction l as [|x l IH]; intros [|i] Hi; simpl in *;
    try lia; [reflexivity|].
  apply IH; lia.
Qed.

Lemma nth_error_list_set_other {A} (l : list A) (i j : nat) (a : A) :
  i <> j -> nth_error (list_set l i a) j = nth_error l j.
Proof.
  revert i j; induction l as [|x l IH]; intros [|i] [|j] Hij; simpl;
    try reflexivity; try congruence.
  apply IH; congruence.
Qed.

Lemma map_list_set_same {A B} (f : A -> B) (l : list A) (i : nat) (a b : A) :
  nth_error l i = Some a -> f b = f a ->
  map f (list_set l i b) = map f l.
Proof.
  revert i; induction l as [|x l IH]; intros [|i] Hi Hf; simpl in *;
    try discriminate.
  - injection Hi as ->. now rewrite Hf.
  - f_equal. now apply IH.
Qed.

(** A computation that ends well has passed each of its steps. *)
Ltac bind_ok :=
  match goal with
  | |- bind ?m _ = Ok _ -> _ =>
      let E := fresh "E" in
      destruct m eqn:E; [cbn [bind] | discriminate]
  end.

(** A turn of the loop changes no name and adds or drops no label. *)
Lemma update_labels_keeps ps sd co l names quality names' quality' :
  update_labels ps sd co l (names, quality) = Ok (names', quality') ->
  map text names' = map text names /\
  length names' = length names /\
  length quality' = length quality.
Proof.
  unfold update_labels. repeat bind_ok. intros [= <- <-].
  match goal with
  | H : index names _ = Ok ?n |- _ =>
      apply index_nat_inv in H; rewrite !length_list_set;
      split; [|split; reflexivity];
      now apply (map_list_set_same text names l n)
  end.
Qed.

Lemma for_each_labels_keeps ps sd co (ls : list nat) :
  forall names quality names' quality',
  for_each ls (update_labels ps sd co) (names, quality)
    = Ok (names', quality') ->
  map text names' = map text names /\
  length names' = length names /\
  length quality' = length quality.
Proof.
  induction ls as [|l ls IH]; intros names quality names' quality' H.
  - injection H as <- <-. auto.
  - cbn [for_each] in H.
    destruct (update_labels ps sd co l (names, quality)) as [[n1 q1]|] eqn:H1;
      [|discriminate].
    cbn [bind] in H.
    destruct (update_labels_keeps _ _ _ _ _ _ _ _ H1) as [Ha [Hb Hc]].
    destruct (IH _ _ _ _ H) as [Ha' [Hb' Hc']].
    repeat split; congruence.
Qed.

(** The setter takes a colour of channels between 0 and 1 as it is. *)
Lemma set_color_rgb (c : value) : rgb c -> set_color c = Ok c.
Proof.
  intros [items [Hc [Hlen Hok]]].
  assert (Hn : (Nat.eqb (length items) 3 || Nat.eqb (length items) 4)%bool
               = true).
  { destruct Hlen as [-> | ->]; reflexivity. }
  destruct Hc as [-> | ->]; cbn [set_color]; now rewrite Hn, Hok.
Qed.

(** A turn of the loop where every lookup is in range. *)
Lemma update_labels_ok ps pal sd l names quality x n q :
  getitem ps "quality_palette" = Ok (PList pal) ->
  length pal = 11%nat -> Forall rgb pal ->
  nth_error sd l = Some x ->
  nth_error names l = Some n ->
  nth_error quality l = Some q ->
  update_labels ps sd (map quality_category sd) l (names, quality)
  = Ok (list_set names l (relabel_name pal x n),
        list_set quality l (relabel_quality pal x q)).
Proof.
  intros Hqp Hlen Hrgb Hx Hn Hq. unfold update_labels.
  rewrite (index_nat _ _ _ Hx); cbn [bind].
  rewrite (index_nat _ _ _ Hq); cbn [bind].
  rewrite Hqp; cbn [bind].
  rewrite (index_nat (map quality_category sd) l (quality_category x))
    by (rewrite nth_error_map, Hx; reflexivity).
  cbn [bind].
  destruct (palette_lookup x pal Hlen) as [c [Hc Hc']].
  assert (Hset : set_color c = Ok c).
  { apply set_color_rgb. rewrite Forall_forall in Hrgb.
    apply Hrgb. eapply nth_error_In. exact Hc'. }
  rewrite Hc; cbn [bind]. rewrite Hset; cbn [bind].
  rewrite (index_nat _ _ _ Hn); cbn [bind].
  rewrite ?Hc; cbn [bind]. rewrite ?Hset; cbn [bind].
  unfold relabel_name, relabel_quality.
  rewrite (nth_error_nth _ _ PNone Hc'). reflexivity.
Qed.

(** The loop over the lines [a, a + k): each of their labels is set
    from the deviation at its own position, the others are left. *)
Lemma labels_loop ps pal sd :
  getitem ps "quality_palette" = Ok (PList pal) ->
  length pal = 11%nat -> Forall rgb pal ->
  forall k a names quality,
  (a + k <= length sd)%nat ->
  (a + k <= length names)%nat ->
  (a + k <= length quality)%nat ->
  exists names' quality',
    for_each (seq a k) (update_labels ps sd (map quality_category sd))
      (names, quality) = Ok (names', quality') /\
    (forall l, (l < a \/ a + k <= l)%nat ->
       nth_error names' l = nth_error names l /\
       nth_error quality' l = nth_error quality l) /\
    (forall l, (a <= l < a + k)%nat ->
       exists n q,
         nth_error names l = Some n /\ nth_error quality l = Some q /\
         nth_error names' l = Some (relabel_name pal (nth l sd 0) n) /\
         nth_error quality' l = Some (relabel_quality pal (nth l sd 0) q)).
Proof.
  intros Hqp Hlen Hrgb.
  induction k as [|k IH]; intros a names quality Hs Hn Hq.
  - exists names, quality. split; [reflexivity|].
    split; [auto | intros l Hl; lia].
  - destruct (nth_error sd a) as [x|] eqn:Hx;
      [|apply nth_error_None in Hx; lia].
    destruct (nth_error names a) as [n|] eqn:Hna;
      [|apply nth_error_None in Hna; lia].
    destruct (nth_error quality a) as [q|] eqn:Hqa;
      [|apply nth_error_None in Hqa; lia].
    cbn [seq for_each].
    rewrite (update_labels_ok ps pal sd a names quality x n q
               Hqp Hlen Hrgb Hx Hna Hqa).
    cbn [bind].
    destruct (IH (S a) (list_set names a (relabel_name pal x n))
                (list_set quality a (relabel_quality pal x q)))
      as [names' [quality' [Hrun [Hout Hin]]]];
      try (rewrite ?length_list_set; lia).
    exists names', quality'. split; [exact Hrun|]. split.
    + intros l Hl. destruct (Hout l) as [H1 H2]; [lia|].
      rewrite H1, H2, !nth_error_list_set_other by lia. auto.
    + intros l Hl. destruct (Nat.eq_dec l a) as [->|Hne].
      * exists n, q. destruct (Hout a) as [H1 H2]; [lia|].
        rewrite H1, H2, !nth_error_list_set_same by lia.
        rewrite (nth_error_nth _ _ 0 Hx). auto.
      * destruct (Hin l) as [n' [q' [H1 [H2 [H3 H4]]]]]; [lia|].
        rewrite nth_error_list_set_other in H1, H2 by lia.
        exists n', q'. auto.
Qed.

(** ** A frame *)

Lemma ready_scale (st : Lines) :
  ready st ->
  (v <- getitem (params st) "scale" ;; as_real v) = Ok (scale_of st) /\
  scale_of st <> 0.
Proof.
  intros [[s [Hs Hs0]] _]. unfold scale_of. rewrite Hs. auto.
Qed.

Lemma ready_palette (st : Lines) :
  ready st ->
  getitem (params st) "quality_palette" = Ok (PList (quality_palette_of st)) /\
  length (quality_palette_of st) = 11%nat /\
  Forall rgb (quality_palette_of st).
Proof.
  intros [_ [[pal [Hp [Hl Hc]]] _]]. unfold quality_palette_of.
  rewrite Hp. auto.
Qed.

Lemma length_frame_sd (m : Np.matrix) (s : R) :
  length (frame_sd m s) = (Np.ncols m - 1)%nat.
Proof.
  unfold frame_sd, Np.std_axis0.
  now rewrite length_map, length_rev, length_map, length_seq.
Qed.

(** Position [l] holds the deviation of the mirrored channel. *)
Lemma nth_frame_sd (m : Np.matrix) (s : R) (l : nat) :
  Np.well_formed m -> (l < Np.ncols m - 1)%nat ->
  nth l (frame_sd m s) 0 = channel_sd m s (Np.ncols m - 1 - S l).
Proof.
  intros Hwf Hl. unfold frame_sd.
  replace 0 with (0 * s) at 1 by ring.
  rewrite (map_nth (fun x => x * s)).
  assert (Hlen : length (Np.std_axis0 (Np.last_rows 256 (plot_data_of m s)))
                 = (Np.ncols m - 1)%nat).
  { unfold Np.std_axis0. now rewrite length_map, length_seq. }
  rewrite rev_nth by lia. rewrite Hlen.
  unfold Np.std_axis0. cbn [Np.ncols Np.last_rows plot_data_of
    Np.div_scalar Np.sub_rows Np.slice_cols_from].
  rewrite nth_map_seq by lia.
  apply (std_last_rows m s); [exact Hwf | lia].
Qed.

(** What a frame that reaches its end has done. *)
Lemma update_plot_inv (m : Np.matrix) (st st' : Lines) :
  update_plot m st = Ok st' ->
  exists s names quality,
    (v <- getitem (params st) "scale" ;; as_real v) = Ok s /\
    for_each (seq 0 (_n_lines st))
      (update_labels (params st) (frame_sd m s)
         (map quality_category (frame_sd m s)))
      (_names st, _quality st) = Ok (names, quality) /\
    st' = with_program (with_labels st names quality)
            (set_a_position (program st)
               (Np.ravel (Np.transpose (plot_data_of m s)))).
Proof.
  unfold update_plot. intros H.
  destruct (getitem (params st) "scale") as [v|]; [|discriminate].
  cbn [bind] in H |- *.
  destruct (as_real v) as [s|]; [|discriminate].
  cbn [bind] in H.
  fold (plot_data_of m s) in H. fold (frame_sd m s) in H.
  destruct (for_each _ _ _) as [[names quality]|] eqn:Hloop; [|discriminate].
  cbn [bind] in H. injection H as <-.
  exists s, names, quality. auto.
Qed.

Lemma update_plot_ok (m : Np.matrix) (st : Lines) (s : R)
  (names quality : list TextVisual) :
  (v <- getitem (params st) "scale" ;; as_real v) = Ok s ->
  for_each (seq 0 (_n_lines st))
    (update_labels (params st) (frame_sd m s)
       (map quality_category (frame_sd m s)))
    (_names st, _quality st) = Ok (names, quality) ->
  update_plot m st =
  Ok (with_program (with_labels st names quality)
        (set_a_position (program st)
           (Np.ravel (Np.transpose (plot_data_of m s))))).
Proof.
  unfold update_plot. intros Hs Hloop.
  destruct (getitem (params st) "scale") as [v|]; [|discriminate].
  cbn [bind] in Hs |- *. rewrite Hs. cbn [bind].
  fold (plot_data_of m s). fold (frame_sd m s).
  rewrite Hloop. reflexivity.
Qed.

(** A frame over a snapshot with a column for the index and one for
    each line goes through, and leaves the labels and the buffer
    described here. *)
Lemma update_plot_succeeds (m : Np.matrix) (st : Lines) :
  ready st -> Np.well_formed m -> Np.ncols m = S (_n_lines st) ->
  exists st',
    update_plot m st = Ok st' /\
    a_position (program st') = vertex_spec m (scale_of st) /\
    same_frame st st' /\
    ready st' /\
    u_scale (program st') = u_scale (program st) /\
    a_index (program st') = a_index (program st) /\
    (forall l, (l < _n_lines st)%nat ->
       exists n q,
         nth_error (_names st) l = Some n /\
         nth_error (_quality st) l = Some q /\
         nth_error (_names st') l
         = Some (relabel_name (quality_palette_of st)
                   (channel_sd m (scale_of st) (_n_lines st - S l)) n) /\
         nth_error (_quality st') l
         = Some (relabel_quality (quality_palette_of st)
                   (channel_sd m (scale_of st) (_n_lines st - S l)) q)).
Proof.
  intros Hready Hwf Hcols.
  destruct (ready_scale st Hready) as [Hs Hs0].
  destruct (ready_palette st Hready) as [Hp [Hl Hc]].
  destruct Hready as [Hrs [Hrp [Hn Hq]]].
  destruct (labels_loop (params st) (quality_palette_of st)
              (frame_sd m (scale_of st)) Hp Hl Hc
              (_n_lines st) 0%nat (_names st) (_quality st))
    as [names [quality [Hloop [Hout Hin]]]];
    try (rewrite ?length_frame_sd; simpl; lia).
  eexists. split; [exact (update_plot_ok m st _ _ _ Hs Hloop)|].
  destruct (for_each_labels_keeps _ _ _ _ _ _ _ _ Hloop) as [Ht [Hln Hlq]].
  split; [cbn; now apply ravel_transpose|].
  split; [unfold same_frame; cbn; auto 10|].
  split.
  { unfold ready; cbn. rewrite Hln, Hlq. auto. }
  split; [reflexivity|]. split; [reflexivity|].
  intros l Hlt. destruct (Hin l) as [n [q [H1 [H2 [H3 H4]]]]]; [lia|].
  exists n, q. cbn.
  rewrite nth_frame_sd in H3, H4 by (try exact Hwf; lia).
  replace (Np.ncols m - 1 - S l)%nat with (_n_lines st - S l)%nat
    in H3, H4 by lia.
  auto.
Qed.

(** ** What construction establishes and the events keep *)

Lemma Lines_init_inv cp (d : data_arg) (pp : value) (st : Lines) :
  Lines_init cp d pp = Ok st ->
  exists x ds,
    sources d = x :: ds /\
    Lines_params cp (n_chan x) pp = Ok (params st) /\
    data st = x :: ds /\
    _cycle st = {| cyc_len := length (x :: ds);
                   cyc_pos := Nat.modulo 1 (length (x :: ds)) |} /\
    _data st = x /\
    _n_lines st = n_chan x /\ _n_points st = n_samples x /\
    _names st = map new_TextVisual (ch_names x) /\
    _quality st = map (fun _ => new_TextVisual "") (ch_names x) /\
    a_position (program st) = repeat 0 (n_chan x * n_samples x).
Proof.
  intros H. destruct (sources d) as [|x ds] eqn:Hs.
  - unfold Lines_init in H. fold (sources d) in H. rewrite Hs in H.
    discriminate.
  - rewrite (Lines_init_first cp d pp x ds Hs) in H.
    destruct (Lines_params cp (n_chan x) pp) as [ps|] eqn:Hps;
      [|discriminate].
    cbn [bind] in H.
    destruct (getitem ps "palette") as [pal|]; [|discriminate].
    cbn [bind] in H. injection H as <-.
    exists x, ds. cbn. repeat split; try reflexivity. exact Hps.
Qed.

Lemma same_frame_refl (st : Lines) : same_frame st st.
Proof. unfold same_frame; auto 10. Qed.

Lemma same_frame_trans (st0 st1 st2 : Lines) :
  same_frame st0 st1 -> same_frame st1 st2 -> same_frame st0 st2.
Proof.
  unfold same_frame. intros H1 H2.
  decompose [and] H1; decompose [and] H2. repeat split; congruence.
Qed.

Lemma on_key_press_inv (name : string) (st st' : Lines) :
  on_key_press name st = Ok st' ->
  exists cyc cur us,
    st' = with_program (with_data st cyc cur) (set_u_scale (program st) us) /\
    (name <> "D"%string -> cyc = _cycle st /\ cur = _data st) /\
    (name = "D"%string ->
     exists i, next (_cycle st) = Ok (i, cyc) /\
               index (data st) (Z.of_nat i) = Ok cur).
Proof.
  unfold on_key_press. intros H.
  assert (Heta : forall s : Lines,
            s = with_program (with_data s (_cycle s) (_data s))
                  (set_u_scale (program s) (u_scale (program s)))).
  { intros [? ? ? ? ? ? [? ? ? ? ? ?] ? ?]. reflexivity. }
  destruct (String.eqb_spec name "D") as [->|Hne].
  - destruct (next (_cycle st)) as [[i cyc]|] eqn:Hnext; [|discriminate].
    cbn [bind] in H.
    destruct (index (data st) (Z.of_nat i)) as [cur|] eqn:Hidx;
      [|discriminate].
    cbn in H. injection H as <-.
    exists cyc, cur, (u_scale (program st)).
    split; [exact (Heta (with_data st cyc cur))|].
    split; [congruence|]. intros _. eauto.
  - cbn [bind] in H.
    destruct (existsb _ _).
    + destruct (u_scale (program st)) as [x y] eqn:Hu.
      injection H as <-. eexists _, _, _.
      split; [reflexivity|]. split; [auto | congruence].
    + injection H as <-. exists (_cycle st), (_data st), (u_scale (program st)).
      split; [apply Heta|]. split; [auto | congruence].
Qed.





(** The default configuration is ready for a frame when the palette
    function returns as many colours as were asked for, with channels
    between 0 and 1, and the source names each of its channels. *)
Lemma default_ready cp (d : data_arg) (st : Lines) :
  Lines_init cp d PNone = Ok st ->
  length (cp "RdYlGn"%string 11%nat) = 11%nat ->
  Forall rgb (cp "RdYlGn"%string 11%nat) ->
  (n_chan (_data st) <= length (ch_names (_data st)))%nat ->
  ready st /\ scale_of st = 500.
Proof.
  intros Hinit Hcp Hrgb Hnames.
  destruct (Lines_init_inv cp d PNone st Hinit)
    as [x [ds [_ [Hps [_ [_ [Hx [Hn [_ [Hna [Hq _]]]]]]]]]]].
  unfold Lines_params in Hps; cbn in Hps. injection Hps as Hps.
  unfold ready, scale_of. rewrite <- Hps, Hna, Hq, Hn, !length_map.
  rewrite Hx in Hnames. cbn.
  repeat split; try exact Hnames.
  - exists 500. split; [reflexivity | lra].
  - eexists. split; [reflexivity|].
    split; [now rewrite length_rev | now apply Forall_rev].
Qed.

(** With one source the key 'D' comes back to it. *)
Lemma single_init cp (d : data_arg) (pp : value) (st : Lines) :
  Lines_init cp d pp = Ok st -> length (sources d) = 1%nat ->
  exists x, single x st.
Proof.
  intros Hinit Hone.
  destruct (Lines_init_inv cp d pp st Hinit)
    as [x [ds [Hs [_ [Hd [Hc [Hx _]]]]]]].
  rewrite Hs in Hone. destruct ds as [|y ds]; [|discriminate].
  exists x. unfold single. rewrite Hd, Hc, Hx. auto.
Qed.

Lemma single_press_D (x : Data) (st : Lines) :
  single x st -> on_key_press "D" st = Ok st.
Proof.
  intros [Hd [Hc Hx]]. unfold on_key_press, next. cbn.
  rewrite Hc, Hd. cbn. rewrite <- Hx.
  destruct st as [? ? ? ? ? ? ? ? ?]; cbn in *. subst. reflexivity.
Qed.

Lemma single_handle (x : Data) (e : event) (st st' : Lines) :
  single x st -> handle e st = Ok st' -> single x st'.
Proof.
  intros Hsing H. destruct e as [name|delta|m]; cbn [handle] in H.
  - destruct (on_key_press_inv name st st' H) as [cyc [cur [us [-> [Hn Hd]]]]].
    destruct Hsing as [Hda [Hc Hx]]. unfold single; cbn.
    destruct (String.eqb_spec name "D") as [->|Hne].
    + destruct (Hd eq_refl) as [i [Hnext Hidx]].
      rewrite Hc in Hnext. cbn in Hnext. injection Hnext as <- <-.
      rewrite Hda in Hidx. cbn in Hidx. injection Hidx as <-. auto.
    + destruct (Hn Hne) as [-> ->]. auto.
  - rewrite on_mouse_wheel_scale in H. injection H as <-. exact Hsing.
  - destruct (update_plot_inv m st st' H) as [s [ns [qs [_ [_ ->]]]]].
    exact Hsing.
Qed.

Lemma single_run (x : Data) (es : list event) : forall st st' : Lines,
  single x st -> run es st = Ok st' -> single x st'.
Proof.
  induction es as [|e es IH]; intros st st' Hs H.
  - injection H as <-. exact Hs.
  - cbn [run] in H. destruct (handle e st) as [st1|] eqn:He; [|discriminate].
    cbn [bind] in H. exact (IH _ _ (single_handle _ _ _ _ Hs He) H).
Qed.

(** ** The claims about a frame and about the key 'D' *)

Lemma sample_palette_rgb (name : string) (n : nat) :
  Forall rgb (sample_palette name n).
Proof.
  unfold sample_palette. apply Forall_map, Forall_forall.
  intros i Hi. apply in_seq in Hi.
  assert (Hn : 0 < INR n) by (apply lt_0_INR; lia).
  assert (Hi0 : 0 <= INR i) by apply pos_INR.
  assert (Hin : INR i <= INR n) by (apply le_INR; lia).
  assert (Hx : 0 <= INR i / INR n <= 1).
  { split.
    - apply Rmult_le_pos; [exact Hi0 | left; now apply Rinv_0_lt_compat].
    - apply (Rmult_le_reg_r (INR n)); [exact Hn|].
      unfold Rdiv. rewrite Rmult_assoc, Rinv_l by lra. lra. }
  eexists. split; [right; reflexivity|]. split; [left; reflexivity|].
  cbn. destruct (Rle_dec 0 (INR i / INR n)); [|lra].
  destruct (Rle_dec (INR i / INR n) 1); [reflexivity | lra].
Qed.

Lemma sample_ready (st : Lines) :
  Lines_init sample_palette (One sample_source) PNone = Ok st ->
  ready st /\ scale_of st = 500.
Proof.
  intros H. apply (default_ready sample_palette (One sample_source) st H).
  - reflexivity.
  - apply sample_palette_rgb.
  - injection H as <-. cbn. lia.
Qed.

(** C4, as the claim states it, fails: the plotter built for 2 channels
    of 3 samples has 6 vertex amplitudes, and after a frame over a
    snapshot of one row it has 2. *)
Lemma buffer_follows_snapshot :
  exists st0,
    Lines_init sample_palette (One sample_source) PNone = Ok st0 /\
    length (a_position (program st0))
    = (n_chan sample_source * n_samples sample_source)%nat /\
    exists st1,
      update_plot short_snapshot st0 = Ok st1 /\
      length (a_position (program st1)) = 2%nat.
Proof.
  eexists. split; [reflexivity|]. split; [reflexivity|].
  match goal with
  | |- exists st1, update_plot _ ?s = _ /\ _ =>
      destruct (sample_ready s eq_refl) as [Hr _];
      destruct (update_plot_succeeds short_snapshot s Hr)
        as [st1 [Hupd [Hpos _]]];
      [repeat constructor | reflexivity |]
  end.
  exists st1. split; [exact Hupd|].
  rewrite Hpos, length_vertex_spec. reflexivity.
Qed.

(** C4 (amended): on a plotter that is ready for a frame (a scale
    that is a number other than zero, a quality palette of 11 colours
    with channels between 0 and 1, a label pair for every line), for
    every sequence of [update_plot] calls after construction in which
    each snapshot has samples_per_channel rows (at least one) and
    channel_count + 1 columns, the calls go through and the length of
    the vertex amplitude buffer equals
    channel_count * samples_per_channel, as fixed at construction. *)
Theorem buffer_length_kept
  (cp : string -> nat -> list value) (d : data_arg) (pp : value)
  (st0 : Lines) (snaps : list Np.matrix)
  (Hinit : Lines_init cp d pp = Ok st0)
  (Hready : ready st0)
  (Hfits : Forall (fits st0) snaps) :
  exists st,
    run (map Timer snaps) st0 = Ok st /\
    length (a_position (program st))
    = (n_chan (_data st0) * n_samples (_data st0))%nat.
Proof.
  destruct (Lines_init_inv cp d pp st0 Hinit)
    as [x [ds [_ [_ [_ [_ [Hx [Hn [Hp [_ [_ Hpos]]]]]]]]]]].
  rewrite Hx, <- Hn, <- Hp.
  assert (H0 : length (a_position (program st0))
               = (_n_lines st0 * _n_points st0)%nat).
  { now rewrite Hpos, repeat_length, Hn, Hp. }
  clear Hinit Hpos Hx Hn Hp.
  assert (Hgen : forall st,
            same_frame st0 st -> ready st ->
            length (a_position (program st))
            = (_n_lines st0 * _n_points st0)%nat ->
            exists st', run (map Timer snaps) st = Ok st' /\
              length (a_position (program st'))
              = (_n_lines st0 * _n_points st0)%nat).
  { induction Hfits as [|m snaps Hm _ IH]; intros st Hsf Hr Hlen.
    - exists st. split; [reflexivity | exact Hlen].
    - destruct Hm as [Hwf [Hcols [Hrows Hpos]]].
      assert (Hnl : _n_lines st = _n_lines st0) by apply Hsf.
      destruct (update_plot_succeeds m st Hr Hwf) as
        [st1 [Hupd [Hbuf [Hsf1 [Hr1 _]]]]]; [congruence|].
      cbn [map run handle]. rewrite Hupd. cbn [bind].
      apply IH; [exact (same_frame_trans _ _ _ Hsf Hsf1) | exact Hr1|].
      rewrite Hbuf, length_vertex_spec, Hcols, Hrows. f_equal. lia. }
  apply Hgen; [apply same_frame_refl | exact Hready | exact H0].
Qed.

Lemma buffer_length_kept_witness :
  exists st0,
    Lines_init sample_palette (One sample_source) PNone = Ok st0 /\
    exists st,
      run (map Timer [sample_snapshot; sample_snapshot]) st0 = Ok st /\
      length (a_position (program st))
      = (n_chan (_data st0) * n_samples (_data st0))%nat.
Proof.
  eexists. split; [reflexivity|].
  apply (buffer_length_kept sample_palette (One sample_source) PNone _
           [sample_snapshot; sample_snapshot] eq_refl).
  - exact (proj1 (sample_ready _ eq_refl)).
  - repeat (apply Forall_cons;
              [split; [repeat constructor|];
               split; [reflexivity|]; split; [reflexivity | cbn; lia]|]).
    apply Forall_nil.
Defined.

(** C8: when a frame over a snapshot reaches its end, the vertex
    amplitude buffer it has written is the snapshot without its leading
    index column, each channel centered by its mean over all rows and
    divided by the configured scale, laid out channel after channel:
    the amplitude of channel [c] at time [t] is at position
    [c * rows + t]. *)
Theorem vertex_buffer_written
  (m : Np.matrix) (st st' : Lines)
  (Hwf : Np.well_formed m)
  (Hupd : update_plot m st = Ok st') :
  a_position (program st') = vertex_spec m (scale_of st) /\
  length (a_position (program st'))
  = ((Np.ncols m - 1) * Np.nrows m)%nat /\
  forall c t, (c < Np.ncols m - 1)%nat -> (t < Np.nrows m)%nat ->
    nth (c * Np.nrows m + t) (a_position (program st')) 0
    = (nth (S c) (nth t (Np.rows m) []) 0 - Np.mean (channel m c))
      / scale_of st.
Proof.
  destruct (update_plot_inv m st st' Hupd) as [s [ns [qs [Hs [_ ->]]]]].
  assert (Hsc : scale_of st = s) by (unfold scale_of; now rewrite Hs).
  cbn [program with_program set_a_position a_position].
  rewrite ravel_transpose, Hsc by exact Hwf.
  split; [reflexivity|]. split; [apply length_vertex_spec|].
  intros c t Hc Ht. now apply nth_vertex_spec.
Qed.

Lemma vertex_buffer_written_witness :
  exists st0,
    Lines_init sample_palette (One sample_source) PNone = Ok st0 /\
    exists st1,
      update_plot sample_snapshot st0 = Ok st1 /\
      a_position (program st1) = vertex_spec sample_snapshot (scale_of st0) /\
      length (a_position (program st1))
      = ((Np.ncols sample_snapshot - 1) * Np.nrows sample_snapshot)%nat /\
      forall c t, (c < Np.ncols sample_snapshot - 1)%nat ->
                  (t < Np.nrows sample_snapshot)%nat ->
        nth (c * Np.nrows sample_snapshot + t) (a_position (program st1)) 0
        = (nth (S c) (nth t (Np.rows sample_snapshot) []) 0
           - Np.mean (channel sample_snapshot c))
          / scale_of st0.
Proof.
  eexists. split; [reflexivity|].
  assert (Hwf : Np.well_formed sample_snapshot) by (repeat constructor).
  match goal with
  | |- exists st1, update_plot _ ?s = _ /\ _ =>
      destruct (sample_ready s eq_refl) as [Hr _];
      destruct (update_plot_succeeds sample_snapshot s Hr Hwf eq_refl)
        as [st1 [Hupd _]];
      exists st1; split; [exact Hupd|];
      exact (vertex_buffer_written sample_snapshot s st1 Hwf Hupd)
  end.
Defined.

(** C9: when exactly one data source is registered, in every state
    the plotter reaches from its construction a press of 'D' leaves
    the whole state as it is: the active source is the same, and so are
    the vertex buffer, the index buffer and the labels. *)
Theorem press_D_single_source
  (cp : string -> nat -> list value) (d : data_arg) (pp : value)
  (st0 st : Lines) (es : list event)
  (Hinit : Lines_init cp d pp = Ok st0)
  (Hone : length (sources d) = 1%nat)
  (Hrun : run es st0 = Ok st) :
  on_key_press "D" st = Ok st.
Proof.
  destruct (single_init cp d pp st0 Hinit Hone) as [x Hx].
  exact (single_press_D x st (single_run x es st0 st Hx Hrun)).
Qed.

Lemma press_D_single_source_witness :
  exists st0 st,
    Lines_init sample_palette (Several [sample_source]) PNone = Ok st0 /\
    run [KeyPress "-"; MouseWheel (0, 1); KeyPress "D"] st0 = Ok st /\
    on_key_press "D" st = Ok st.
Proof.
  eexists; eexists. split; [reflexivity|]. split; [reflexivity|].
  apply (press_D_single_source sample_palette (Several [sample_source])
           PNone _ _ [KeyPress "-"; MouseWheel (0, 1); KeyPress "D"]
           eq_refl eq_refl eq_refl).
Defined.



(** ** Further properties: sources and the key 'D' *)

Lemma on_key_press_D (st : Lines) :
  on_key_press "D" st =
  ('(i, cyc) <- next (_cycle st) ;;
   d <- index (data st) (Z.of_nat i) ;;
   Ok (with_data st cyc d)).
Proof.
  unfold on_key_press. cbn.
  destruct (next (_cycle st)) as [[i cyc]|]; [|reflexivity]. cbn.
  destruct (index (data st) (Z.of_nat i)); reflexivity.
Qed.

(** [k] presses of 'D' from a plotter whose cycle is about to yield
    [S j mod n]: the cycle advances by [k], the rest stays. *)
Lemma D_presses (st0 : Lines) (k : nat) : forall (st : Lines) (j : nat),
  data st0 <> [] ->
  same_but_source st0 st ->
  _cycle st = {| cyc_len := length (data st0);
                 cyc_pos := Nat.modulo (S j) (length (data st0)) |} ->
  exists st',
    run (repeat (KeyPress "D") k) st = Ok st' /\
    same_but_source st0 st' /\
    _cycle st' = {| cyc_len := length (data st0);
                    cyc_pos := Nat.modulo (S (j + k)) (length (data st0)) |} /\
    (k <> 0%nat ->
     nth_error (data st0) (Nat.modulo (j + k) (length (data st0)))
     = Some (_data st')).
Proof.
  induction k as [|k IH]; intros st j Hne Hsame Hcyc.
  - exists st. rewrite Nat.add_0_r.
    split; [reflexivity|]. split; [exact Hsame|].
    split; [exact Hcyc | intros H; congruence].
  - assert (Hlen : length (data st0) <> 0%nat)
      by (destruct (data st0); simpl; congruence).
    cbn [repeat run handle]. rewrite on_key_press_D.
    unfold next. rewrite Hcyc. cbn [cyc_len cyc_pos].
    destruct (Nat.eqb_spec (length (data st0)) 0) as [H0|_]; [lia|].
    cbn [bind].
    pose proof (Nat.mod_upper_bound (S j) _ Hlen) as Hlt.
    destruct (nth_error (data st0) (Nat.modulo (S j) (length (data st0))))
      as [x|] eqn:Hx; [|apply nth_error_None in Hx; lia].
    assert (Hd : data st = data st0) by apply Hsame.
    rewrite Hd, (index_nat _ _ _ Hx). cbn [bind].
    set (st1 := with_data st _ x).
    destruct (IH st1 (S j) Hne) as [st' [Hrun [Hs' [Hc' Hd']]]].
    { unfold same_but_source in *; cbn. tauto. }
    { unfold st1; cbn. f_equal.
      rewrite <- (Nat.add_1_r (S j)), <- (Nat.add_1_r (Nat.modulo _ _)).
      apply Nat.Div0.add_mod_idemp_l. }
    exists st'. split; [exact Hrun|]. split; [exact Hs'|].
    replace (S (j + S k)) with (S (S j + k)) by lia.
    split; [exact Hc'|]. intros _.
    replace (j + S k)%nat with (S j + k)%nat by lia.
    destruct k as [|k]; [|apply Hd'; lia].
    cbn in Hrun. injection Hrun as <-. rewrite Nat.add_0_r. exact Hx.
Qed.

(** X1: 'D' goes round the sources in order.  After [k] presses of 'D'
    on a constructed plotter the active source is the one at position
    [k mod n] of the [n] sources, and everything but the cycle and the
    active source (the line and point counts, the parameters, the
    program with its buffers, the labels with the names of the first
    source) is as construction left it. *)
Theorem D_round_robin
  (cp : string -> nat -> list value) (d : data_arg) (pp : value)
  (st0 : Lines) (k : nat)
  (Hinit : Lines_init cp d pp = Ok st0) :
  exists st,
    run (repeat (KeyPress "D") k) st0 = Ok st /\
    nth_error (sources d) (Nat.modulo k (length (sources d)))
    = Some (_data st) /\
    same_but_source st0 st.
Proof.
  destruct (Lines_init_inv cp d pp st0 Hinit)
    as [x [ds [Hs [_ [Hd [Hc [Hx _]]]]]]].
  rewrite Hs, <- Hd.
  destruct (D_presses st0 k st0 0) as [st [Hrun [Hsame [_ Hact]]]].
  - rewrite Hd. discriminate.
  - unfold same_but_source. tauto.
  - rewrite Hc, Hd. reflexivity.
  - exists st. split; [exact Hrun|]. split; [|exact Hsame].
    destruct k as [|k]; [|apply Hact; lia].
    cbn in Hrun. injection Hrun as <-.
    rewrite Nat.Div0.mod_0_l, Hd, Hx. reflexivity.
Qed.

Lemma D_round_robin_witness :
  exists st0,
    Lines_init sample_palette (Several [sample_source; other_source]) PNone
    = Ok st0 /\
    exists st,
      run (repeat (KeyPress "D") 3) st0 = Ok st /\
      nth_error (sources (Several [sample_source; other_source]))
        (Nat.modulo 3 (length (sources (Several [sample_source;
                                                  other_source]))))
      = Some (_data st) /\
      same_but_source st0 st.
Proof.
  eexists. split; [reflexivity|].
  apply (D_round_robin sample_palette
           (Several [sample_source; other_source]) PNone _ 3 eq_refl).
Defined.

(** ** Further properties: construction and the parameters *)

Lemma find_app_rev {A} (f : A -> bool) (l l' : list A) :
  find f (l ++ l') =
  match find f l with
  | Some a => Some a
  | None => find f l'
  end.
Proof.
  induction l as [|a l IH]; simpl; [reflexivity|].
  destruct (f a); [reflexivity | exact IH].
Qed.

(** A lookup after an update sees the update first, then what was
    there. *)
Lemma getitem_app (d items : dict) (k : string) :
  getitem (d ++ items) k =
  match find (is_key k) (rev items) with
  | Some kv => Ok (snd kv)
  | None => getitem d k
  end.
Proof.
  unfold getitem. rewrite rev_app_distr, find_app_rev.
  destruct (find (is_key k) (rev items)); reflexivity.
Qed.

(** X2: construction with no configuration or with a mapping fails
    only for want of a source.  An empty list of sources raises
    StopIteration whatever [plot_params] is (the parameters are not
    looked at before); with a first source of at least one channel and
    [plot_params] None or a mapping that leaves the palette alone, the
    plotter is constructed with the first source active, a scale of
    (1, 1) and a vertex buffer of n_chan * n_samples zeros. *)
Theorem construction_outcome
  (cp : string -> nat -> list value) (d : data_arg) (pp : value)
  (x : Data) (ds : list Data)
  (Hs : sources d = x :: ds)
  (Hchan : (0 < n_chan x)%nat)
  (Hpp : pp = PNone \/
         exists items, pp = PDict items /\
                       find (is_key "palette") (rev items) = None) :
  (forall pp', Lines_init cp (Several []) pp' = Raise StopIteration) /\
  exists st,
    Lines_init cp d pp = Ok st /\
    _data st = x /\
    u_scale (program st) = (1, 1) /\
    a_position (program st) = repeat 0 (n_chan x * n_samples x) /\
    a_color (program st)
    = Np.repeat_each (cp "RdBu_r"%string (n_chan x)) (n_samples x).
Proof.
  split; [reflexivity|].
  rewrite (Lines_init_first cp d pp x ds Hs).
  assert (Hps : exists items,
            Lines_params cp (n_chan x) pp
            = Ok (default_params cp (n_chan x) ++ items) /\
            find (is_key "palette") (rev items) = None).
  { destruct Hpp as [-> | [items [-> Hf]]].
    - exists []. split; reflexivity.
    - exists items. split; [reflexivity | exact Hf]. }
  destruct Hps as [items [-> Hf]]. cbn [bind].
  rewrite getitem_app, Hf.
  eexists. split; [reflexivity|]. cbn. auto.
Qed.

Lemma construction_outcome_witness :
  (forall pp', Lines_init sample_palette (Several []) pp'
               = Raise StopIteration) /\
  exists st,
    Lines_init sample_palette (One sample_source)
      (PDict [(PStr "scale", PInt 100)]) = Ok st /\
    _data st = sample_source /\
    u_scale (program st) = (1, 1) /\
    a_position (program st)
    = repeat 0 (n_chan sample_source * n_samples sample_source) /\
    a_color (program st)
    = Np.repeat_each (sample_palette "RdBu_r" (n_chan sample_source))
        (n_samples sample_source).
Proof.
  apply (construction_outcome sample_palette (One sample_source)
           (PDict [(PStr "scale", PInt 100)]) sample_source []).
  - reflexivity.
  - cbn; lia.
  - right. eexists. split; reflexivity.
Defined.

Lemma merge_pairs_then_short (items : list value) (bad : value)
  (rest inner : list value) : forall d : dict,
  Forall (fun item => as_pair item <> None) items ->
  iter bad = Some inner -> length inner <> 2%nat ->
  exists msg, merge_from_seq2 d (items ++ bad :: rest)
              = Raise (ValueError msg).
Proof.
  induction items as [|item items IH]; intros d Hall Hbad Hlen.
  - cbn [app merge_from_seq2]. rewrite Hbad.
    destruct inner as [|a [|b [|c inner]]]; try (eexists; reflexivity).
    simpl in Hlen. congruence.
  - inversion Hall as [|? ? Hitem Hrest]; subst.
    destruct (as_pair item) as [[k v]|] eqn:Hp; [|congruence].
    destruct (as_pair_inv _ _ _ Hp) as [Hi Hh].
    cbn [app merge_from_seq2]. rewrite Hi, Hh. now apply IH.
Qed.

(** X3: a ValueError of the update is not turned into the
    configuration error.  When [plot_params] is a list in which
    key-value pairs are followed by a sequence that does not have
    exactly two items, and when it is any string that is not empty,
    construction over at least one source leaves with a ValueError. *)
Theorem config_value_error
  (cp : string -> nat -> list value) (d : data_arg)
  (pairs : list value) (bad : value) (rest inner : list value)
  (c : ascii) (s : string)
  (Hd : d <> Several [])
  (Hpairs : Forall (fun item => as_pair item <> None) pairs)
  (Hbad : iter bad = Some inner)
  (Hlen : length inner <> 2%nat) :
  (exists msg, Lines_init cp d (PList (pairs ++ bad :: rest))
               = Raise (ValueError msg)) /\
  (exists msg, Lines_init cp d (PStr (String c s))
               = Raise (ValueError msg)).
Proof.
  destruct (sources_nonempty d Hd) as [x [ds Hs]].
  split.
  - rewrite (Lines_init_first cp d _ x ds Hs).
    unfold Lines_params, update; cbn [iter].
    destruct (merge_pairs_then_short pairs bad rest inner
                (default_params cp (n_chan x)) Hpairs Hbad Hlen)
      as [msg ->].
    exists msg. reflexivity.
  - rewrite (Lines_init_first cp d _ x ds Hs).
    eexists. reflexivity.
Qed.

Lemma config_value_error_witness :
  (exists msg,
     Lines_init sample_palette (One sample_source)
       (PList ([PTuple [PStr "scale"; PInt 100]]
               ++ PTuple [PStr "title"] :: []))
     = Raise (ValueError msg)) /\
  (exists msg,
     Lines_init sample_palette (One sample_source) (PStr (String "a" "bc"))
     = Raise (ValueError msg)).
Proof.
  apply (config_value_error sample_palette (One sample_source)
           [PTuple [PStr "scale"; PInt 100]] (PTuple [PStr "title"]) []
           [PStr "title"]).
  - discriminate.
  - repeat constructor. discriminate.
  - reflexivity.
  - simpl. lia.
Defined.

(** X4: the parameters read back what the mapping gave.  After
    construction with a mapping as [plot_params], a string key bound in
    the mapping reads back as the value of its last binding, and a key
    that is not bound there reads back as its default (a KeyError if it
    has none); the five defaults are never lost. *)
Theorem mapping_overrides
  (cp : string -> nat -> list value) (d : data_arg) (items : dict)
  (st : Lines) (k : string)
  (Hinit : Lines_init cp d (PDict items) = Ok st) :
  getitem (params st) k =
  match find (is_key k) (rev items) with
  | Some kv => Ok (snd kv)
  | None => getitem (default_params cp (_n_lines st)) k
  end /\
  (In k ["title"; "font_size"; "scale"; "palette"; "quality_palette"]%string
   -> exists v, getitem (params st) k = Ok v).
Proof.
  destruct (Lines_init_inv cp d _ st Hinit)
    as [x [ds [_ [Hps [_ [_ [_ [Hn _]]]]]]]].
  assert (Hps' : params st = default_params cp (n_chan x) ++ items).
  { unfold Lines_params, update in Hps. now injection Hps. }
  rewrite Hps', Hn, getitem_app. split; [reflexivity|].
  intros Hk. destruct (find (is_key k) (rev items)); [eauto|].
  simpl in Hk.
  repeat (destruct Hk as [<- | Hk]; [eexists; reflexivity|]).
  contradiction.
Qed.

Lemma mapping_overrides_witness :
  exists st,
    Lines_init sample_palette (One sample_source)
      (PDict [(PStr "scale", PInt 100); (PStr "scale", PInt 250)]) = Ok st /\
    getitem (params st) "scale" = Ok (PInt 250) /\
    exists v, getitem (params st) "scale" = Ok v.
Proof.
  eexists. split; [reflexivity|].
  match goal with
  | |- getitem (params ?s) _ = _ /\ _ =>
      destruct (mapping_overrides sample_palette (One sample_source)
                  [(PStr "scale", PInt 100); (PStr "scale", PInt 250)]
                  s "scale" eq_refl) as [H1 H2]
  end.
  split; [exact H1|]. apply H2. simpl. auto.
Defined.

(** ** Further properties: the static buffers *)

Lemma repeat_each_concat {A} (l : list A) (p : nat) :
  Np.repeat_each l p = concat (map (fun a => repeat a p) l).
Proof. unfold Np.repeat_each. apply flat_map_concat_map. Qed.

Lemma length_repeat_each {A} (l : list A) (p : nat) :
  length (Np.repeat_each l p) = (length l * p)%nat.
Proof.
  rewrite repeat_each_concat, (length_concat_uniform _ p).
  - now rewrite length_map.
  - apply Forall_map, Forall_forall. intros a _. apply repeat_length.
Qed.

Lemma nth_repeat_each {A} (l : list A) (p c t : nat) (d : A) :
  (c < length l)%nat -> (t < p)%nat ->
  nth (c * p + t) (Np.repeat_each l p) d = nth c l d.
Proof.
  intros Hc Ht. rewrite repeat_each_concat.
  rewrite (nth_concat_uniform _ p); [| |exact Ht].
  - rewrite (nth_indep _ [] (repeat d p)) by now rewrite length_map.
    rewrite (map_nth (fun a => repeat a p)).
    now apply nth_repeat_lt.
  - apply Forall_map, Forall_forall. intros a _. apply repeat_length.
Qed.

Lemma length_tile {A} (l : list A) (n : nat) :
  length (Np.tile l n) = (n * length l)%nat.
Proof.
  unfold Np.tile. rewrite (length_concat_uniform _ (length l)).
  - now rewrite repeat_length.
  - apply Forall_forall. intros x Hx. now apply repeat_spec in Hx as ->.
Qed.

Lemma nth_tile {A} (l : list A) (n c t : nat) (d : A) :
  (c < n)%nat -> (t < length l)%nat ->
  nth (c * length l + t) (Np.tile l n) d = nth t l d.
Proof.
  intros Hc Ht. unfold Np.tile.
  rewrite (nth_concat_uniform _ (length l)); [| |exact Ht].
  - now rewrite nth_repeat_lt.
  - apply Forall_forall. intros x Hx. now apply repeat_spec in Hx as ->.
Qed.

Lemma c_spec (a b c : list nat) (n : nat) :
  length a = n -> length b = n -> length c = n ->
  length (Np.c_ a b c) = n /\
  forall k, (k < n)%nat ->
    nth_error (Np.c_ a b c) k
    = Some (INR (nth k a 0%nat), INR (nth k b 0%nat), INR (nth k c 0%nat)).
Proof.
  revert b c n. induction a as [|x a IH]; intros [|y b] [|z c] n Ha Hb Hc;
    simpl in *; subst; try discriminate.
  - split; [reflexivity | intros k Hk; lia].
  - destruct (IH b c (length a) eq_refl) as [Hl Hn]; try lia.
    split; [now rewrite Hl|].
    intros [|k] Hk; [reflexivity | apply Hn; lia].
Qed.

(** The index buffer pairs position [c * n_points + t] with line [c]
    and sample [t]. *)
Lemma index_layout (n_lines n_points : nat) (color : list value) (c t : nat) :
  (c < n_lines)%nat -> (t < n_points)%nat ->
  length (a_index (_set_program_params n_lines n_points color))
  = (n_lines * n_points)%nat /\
  nth_error (a_index (_set_program_params n_lines n_points color))
    (c * n_points + t)
  = Some (0, INR c, INR t).
Proof.
  intros Hc Ht. cbn [_set_program_params a_index].
  assert (H1 : length (Np.repeat_each (Np.arange 1) n_lines) = n_lines).
  { rewrite length_repeat_each. simpl. lia. }
  assert (H2 : length (Np.tile (Np.arange n_lines) 1) = n_lines).
  { rewrite length_tile. unfold Np.arange. rewrite length_seq. lia. }
  destruct (c_spec
              (Np.repeat_each (Np.repeat_each (Np.arange 1) n_lines) n_points)
              (Np.repeat_each (Np.tile (Np.arange n_lines) 1) n_points)
              (Np.tile (Np.arange n_points) n_lines)
              (n_lines * n_points)) as [Hlen Hnth].
  - now rewrite length_repeat_each, H1.
  - now rewrite length_repeat_each, H2.
  - rewrite length_tile. unfold Np.arange. now rewrite length_seq.
  - split; [exact Hlen|]. rewrite Hnth by nia.
    rewrite !nth_repeat_each by lia.
    replace c with (0 * 1 + c)%nat at 1 by lia.
    rewrite (nth_repeat_each (Np.arange 1) n_lines 0 c) by (simpl; lia).
    replace c with (0 * length (Np.arange n_lines) + c)%nat at 1 by lia.
    rewrite nth_tile by (unfold Np.arange; rewrite ?length_seq; lia).
    pose proof (nth_tile (Np.arange n_points) n_lines c t 0%nat Hc) as Ht'.
    unfold Np.arange in *. rewrite length_seq in Ht'. rewrite Ht' by lia.
    rewrite !seq_nth by lia. reflexivity.
Qed.

Lemma Lines_init_program cp (d : data_arg) (pp : value) (st : Lines) :
  Lines_init cp d pp = Ok st ->
  exists palette,
    getitem (params st) "palette" = Ok palette /\
    program st = _set_program_params (_n_lines st) (_n_points st)
                   (Np.repeat_axis0 palette (_n_points st)).
Proof.
  intros H. destruct (sources d) as [|x ds] eqn:Hs.
  - unfold Lines_init in H. fold (sources d) in H. rewrite Hs in H.
    discriminate.
  - rewrite (Lines_init_first cp d pp x ds Hs) in H.
    destruct (Lines_params cp (n_chan x) pp) as [ps|]; [|discriminate].
    cbn [bind] in H.
    destruct (getitem ps "palette") as [pal|] eqn:Hp; [|discriminate].
    cbn [bind] in H. injection H as <-.
    exists pal. cbn. auto.
Qed.

(** X5: the buffers set at construction agree on a layout.  In a
    constructed plotter the index buffer has n_lines * n_points rows,
    and the row at position [c * n_points + t] is (0, c, t): line [c],
    sample [t].  When the palette is a list of colours, the colour
    buffer has n_points entries for each of them, and the entry at
    position [c * n_points + t] is colour [c] of the palette. *)
Theorem static_buffers_layout
  (cp : string -> nat -> list value) (d : data_arg) (pp : value)
  (st : Lines) (pal : list value) (c t : nat)
  (Hinit : Lines_init cp d pp = Ok st)
  (Hpal : getitem (params st) "palette" = Ok (PList pal))
  (Hc : (c < _n_lines st)%nat)
  (Ht : (t < _n_points st)%nat) :
  length (a_index (program st)) = (_n_lines st * _n_points st)%nat /\
  nth_error (a_index (program st)) (c * _n_points st + t)
  = Some (0, INR c, INR t) /\
  length (a_color (program st)) = (length pal * _n_points st)%nat /\
  ((c < length pal)%nat ->
   nth_error (a_color (program st)) (c * _n_points st + t)
   = nth_error pal c).
Proof.
  destruct (Lines_init_program cp d pp st Hinit) as [palette [Hp ->]].
  rewrite Hpal in Hp. injection Hp as <-.
  destruct (index_layout (_n_lines st) (_n_points st)
              (Np.repeat_axis0 (PList pal) (_n_points st)) c t Hc Ht)
    as [H1 H2].
  split; [exact H1|]. split; [exact H2|].
  cbn [_set_program_params a_color Np.repeat_axis0].
  split; [apply length_repeat_each|].
  intros Hcp.
  rewrite (nth_error_nth' _ PNone)
    by (rewrite length_repeat_each; nia).
  rewrite nth_repeat_each by lia.
  symmetry. now apply nth_error_nth'.
Qed.

Lemma static_buffers_layout_witness :
  exists st,
    Lines_init sample_palette (One sample_source) PNone = Ok st /\
    length (a_index (program st)) = (_n_lines st * _n_points st)%nat /\
    nth_error (a_index (program st)) (1 * _n_points st + 2)
    = Some (0, INR 1, INR 2) /\
    length (a_color (program st))
    = (length (sample_palette "RdBu_r" 2) * _n_points st)%nat /\
    ((1 < length (sample_palette "RdBu_r" 2))%nat ->
     nth_error (a_color (program st)) (1 * _n_points st + 2)
     = nth_error (sample_palette "RdBu_r" 2) 1).
Proof.
  eexists. split; [reflexivity|].
  apply (static_buffers_layout sample_palette (One sample_source) PNone _
           (sample_palette "RdBu_r" 2) 1 2 eq_refl eq_refl).
  - cbn; lia.
  - cbn; lia.
Defined.

(** ** Further properties: the wheel *)

Lemma sign_pos (y : R) : 0 < y -> Np.sign y = 1.
Proof.
  intros Hy. unfold Np.sign.
  destruct (Rlt_dec y 0); [lra|]. destruct (Rlt_dec 0 y); [reflexivity | lra].
Qed.

Lemma sign_neg (y : R) : y < 0 -> Np.sign y = -1.
Proof.
  intros Hy. unfold Np.sign. destruct (Rlt_dec y 0); [reflexivity | lra].
Qed.

Lemma sign_zero : Np.sign 0 = 0.
Proof.
  unfold Np.sign.
  destruct (Rlt_dec 0 0); [lra|]. destruct (Rlt_dec 0 0); [lra | reflexivity].
Qed.

(** No event brings the time scale below 1 or the amplitude scale
    below 0.01. *)
Lemma handle_scales (e : event) (st st' : Lines) :
  handle e st = Ok st' ->
  1 <= time_scale st /\ 0.01 <= amplitude_scale st ->
  1 <= time_scale st' /\ 0.01 <= amplitude_scale st'.
Proof.
  intros H Hst. destruct e as [name|delta|m]; cbn [handle] in H.
  - unfold on_key_press in H.
    set (first := if String.eqb name "D" then _ else _) in H.
    assert (Hfirst : forall st1, first = Ok st1 -> program st1 = program st).
    { unfold first. intros st1 H1.
      destruct (String.eqb name "D"); [|now injection H1 as <-].
      destruct (next (_cycle st)) as [[i cyc]|]; [|discriminate].
      cbn [bind] in H1.
      destruct (index (data st) (Z.of_nat i)); [|discriminate].
      cbn [bind] in H1. now injection H1 as <-. }
    destruct first as [st1|]; [|discriminate]. cbn [bind] in H.
    specialize (Hfirst st1 eq_refl).
    unfold time_scale, amplitude_scale in *.
    destruct (existsb _ _).
    + destruct (u_scale (program st1)) as [x y].
      injection H as <-. cbn. split; [apply Rmax_l|].
      apply Rle_trans with 1; [lra | apply Rmax_l].
    + injection H as <-. now rewrite Hfirst.
  - rewrite on_mouse_wheel_scale in H. injection H as <-.
    unfold time_scale, amplitude_scale; cbn. split; apply Rmax_l.
  - destruct (update_plot_inv m st st' H) as [s [ns [qs [_ [_ ->]]]]].
    exact Hst.
Qed.

Lemma reachable_scales cp (d : data_arg) (pp : value) (es : list event)
  (st0 st : Lines) :
  Lines_init cp d pp = Ok st0 -> run es st0 = Ok st ->
  1 <= time_scale st /\ 0.01 <= amplitude_scale st.
Proof.
  intros Hinit.
  assert (H0 : 1 <= time_scale st0 /\ 0.01 <= amplitude_scale st0).
  { unfold time_scale, amplitude_scale.
    rewrite (Lines_init_u_scale _ _ _ _ Hinit); simpl. lra. }
  clear Hinit. revert st0 H0.
  induction es as [|e es IH]; intros st0 H0 Hrun.
  - now injection Hrun as <-.
  - cbn [run] in Hrun.
    destruct (handle e st0) as [st1|] eqn:He; [|discriminate].
    cbn [bind] in Hrun.
    exact (IH st1 (handle_scales e st0 st1 He H0) Hrun).
Qed.

(** A wheel event on a plotter whose time scale is at least 1. *)
Lemma wheel_step (delta : R * R) (st : Lines) :
  1 <= time_scale st ->
  exists st',
    on_mouse_wheel delta st = Ok st' /\
    time_scale st' = time_scale st /\
    amplitude_scale st'
    = Rmax 0.01 (amplitude_scale st * exp (0.1 * Np.sign (snd delta))) /\
    same_frame st st' /\ _data st' = _data st /\ _cycle st' = _cycle st /\
    a_position (program st') = a_position (program st).
Proof.
  intros Ht. rewrite on_mouse_wheel_scale. eexists. split; [reflexivity|].
  unfold time_scale, amplitude_scale in *; cbn.
  split; [apply Rmax_right; exact Ht|].
  split.
  { f_equal. f_equal. f_equal. lra. }
  unfold same_frame; cbn. auto 12.
Qed.

(** X6: what the wheel does.  In every state a constructed plotter
    reaches, a wheel event leaves the time-axis scale as it is; turned
    upwards it multiplies the amplitude-axis scale by exp(0.1), which
    raises it; turned downwards it multiplies it by exp(-0.1) with a
    floor of 0.01, which never raises it; with a vertical delta of
    zero it changes nothing of the scale.  The horizontal delta has no
    effect. *)
Theorem wheel_effect
  (cp : string -> nat -> list value) (d : data_arg) (pp : value)
  (st0 st : Lines) (es : list event) (delta : R * R)
  (Hinit : Lines_init cp d pp = Ok st0)
  (Hrun : run es st0 = Ok st) :
  exists st',
    on_mouse_wheel delta st = Ok st' /\
    time_scale st' = time_scale st /\
    (0 < snd delta ->
     amplitude_scale st' = amplitude_scale st * exp 0.1 /\
     amplitude_scale st < amplitude_scale st') /\
    (snd delta < 0 ->
     amplitude_scale st' = Rmax 0.01 (amplitude_scale st * exp (- 0.1)) /\
     amplitude_scale st' <= amplitude_scale st) /\
    (snd delta = 0 -> amplitude_scale st' = amplitude_scale st) /\
    (forall x, on_mouse_wheel (x, snd delta) st = Ok st').
Proof.
  destruct (reachable_scales cp d pp es st0 st Hinit Hrun) as [Ht Ha].
  destruct (wheel_step delta st Ht) as [st' [Hw [Hts [Has _]]]].
  exists st'. split; [exact Hw|]. split; [exact Hts|].
  rewrite Has. split; [|split; [|split]].
  - intros Hpos. rewrite (sign_pos _ Hpos).
    replace (0.1 * 1) with 0.1 by lra.
    assert (He : 1 + 0.1 < exp 0.1) by (apply exp_ineq1; lra).
    rewrite Rmax_right by nra. split; [reflexivity | nra].
  - intros Hneg. rewrite (sign_neg _ Hneg).
    replace (0.1 * -1) with (- 0.1) by lra.
    split; [reflexivity|].
    pose proof (exp_lt_1 (- 0.1)) as He. pose proof (exp_pos (- 0.1)).
    apply Rmax_lub; [exact Ha | nra].
  - intros Hz. rewrite Hz, sign_zero.
    replace (0.1 * 0) with 0 by lra. rewrite exp_0, Rmult_1_r.
    now apply Rmax_right.
  - intros x. rewrite on_mouse_wheel_scale in Hw |- *. exact Hw.
Qed.

Lemma wheel_effect_witness :
  exists st0 st,
    Lines_init sample_palette (One sample_source) PNone = Ok st0 /\
    run [KeyPress "-"; MouseWheel (0, -1)] st0 = Ok st /\
    exists st',
      on_mouse_wheel (3, 1) st = Ok st' /\
      time_scale st' = time_scale st.
Proof.
  eexists; eexists. split; [reflexivity|]. split; [reflexivity|].
  match goal with
  | |- exists st', on_mouse_wheel _ ?s = _ /\ _ =>
      destruct (wheel_effect sample_palette (One sample_source) PNone
                  _ s [KeyPress "-"; MouseWheel (0, -1)] (3, 1)
                  eq_refl eq_refl) as [st' [H1 [H2 _]]];
      exists st'; split; [exact H1 | exact H2]
  end.
Defined.

Lemma wheel_ups (ups : list event) : forall st : Lines,
  Forall wheel_up ups ->
  1 <= time_scale st -> 0.01 <= amplitude_scale st ->
  exists st',
    run ups st = Ok st' /\
    time_scale st' = time_scale st /\
    amplitude_scale st'
    = amplitude_scale st * exp (0.1 * INR (length ups)).
Proof.
  induction ups as [|e ups IH]; intros st Hall Ht Ha.
  - exists st. split; [reflexivity|]. split; [reflexivity|].
    simpl. replace (0.1 * 0) with 0 by lra. rewrite exp_0. lra.
  - inversion Hall as [|? ? He Hrest]; subst.
    destruct e as [name|delta|m]; try contradiction. simpl in He.
    destruct (wheel_step delta st Ht) as [st1 [Hw [Hts [Has _]]]].
    rewrite (sign_pos _ He) in Has.
    replace (0.1 * 1) with 0.1 in Has by lra.
    assert (Hexp : 1 <= exp 0.1) by (apply exp_ge_1; lra).
    rewrite Rmax_right in Has by nra.
    destruct (IH st1 Hrest) as [st' [Hrun [Hts' Has']]];
      [lra | rewrite Has; nra|].
    exists st'. cbn [run handle]. rewrite Hw. cbn [bind].
    split; [exact Hrun|]. split; [lra|].
    change (length (MouseWheel delta :: ups)) with (S (length ups)).
    rewrite Has', Has, S_INR, Rmult_assoc, <- exp_plus.
    f_equal. f_equal. lra.
Qed.

Lemma wheel_downs (downs : list event) : forall (st : Lines) (a c : R),
  Forall wheel_down downs ->
  1 <= time_scale st -> 0.01 <= a -> 0 <= c ->
  amplitude_scale st = a * exp (0.1 * (INR (length downs) + c)) ->
  exists st',
    run downs st = Ok st' /\
    time_scale st' = time_scale st /\
    amplitude_scale st' = a * exp (0.1 * c).
Proof.
  induction downs as [|e downs IH]; intros st a c Hall Ht Ha Hc Hamp.
  - exists st. split; [reflexivity|]. split; [reflexivity|].
    rewrite Hamp. simpl. f_equal. f_equal. lra.
  - inversion Hall as [|? ? He Hrest]; subst.
    destruct e as [name|delta|m]; try contradiction. simpl in He.
    destruct (wheel_step delta st Ht) as [st1 [Hw [Hts [Has _]]]].
    rewrite (sign_neg _ He) in Has.
    change (length (MouseWheel delta :: downs)) with (S (length downs))
      in Hamp.
    rewrite Hamp, S_INR, Rmult_assoc, <- exp_plus in Has.
    replace (0.1 * (INR (length downs) + 1 + c) + 0.1 * -1)
      with (0.1 * (INR (length downs) + c)) in Has by lra.
    assert (Hexp : 1 <= exp (0.1 * (INR (length downs) + c))).
    { apply exp_ge_1. pose proof (pos_INR (length downs)). nra. }
    rewrite Rmax_right in Has by nra.
    destruct (IH st1 a c Hrest) as [st' [Hrun [Hts' Has']]];
      try assumption; [lra|].
    exists st'. cbn [run handle]. rewrite Hw. cbn [bind].
    split; [exact Hrun|]. split; [lra | exact Has'].
Qed.

(** X7: the wheel undoes itself upwards first.  In every state a
    constructed plotter reaches, any number of wheel events upwards
    followed by as many downwards leaves both scales as they were. *)
Theorem wheel_round_trip
  (cp : string -> nat -> list value) (d : data_arg) (pp : value)
  (st0 st : Lines) (es ups downs : list event)
  (Hinit : Lines_init cp d pp = Ok st0)
  (Hrun : run es st0 = Ok st)
  (Hups : Forall wheel_up ups)
  (Hdowns : Forall wheel_down downs)
  (Hlen : length ups = length downs) :
  exists st',
    run (ups ++ downs) st = Ok st' /\
    u_scale (program st') = u_scale (program st).
Proof.
  destruct (reachable_scales cp d pp es st0 st Hinit Hrun) as [Ht Ha].
  destruct (wheel_ups ups st Hups Ht Ha) as [st1 [Hr1 [Ht1 Ha1]]].
  destruct (wheel_downs downs st1 (amplitude_scale st) 0 Hdowns)
    as [st2 [Hr2 [Ht2 Ha2]]]; try lra.
  { rewrite Ha1, Hlen. f_equal. f_equal. lra. }
  exists st2. rewrite run_app, Hr1. split; [exact Hr2|].
  replace (0.1 * 0) with 0 in Ha2 by lra.
  rewrite exp_0, Rmult_1_r in Ha2.
  unfold time_scale, amplitude_scale in *.
  rewrite (surjective_pairing (u_scale (program st2))),
    (surjective_pairing (u_scale (program st))).
  f_equal; congruence.
Qed.

Lemma wheel_round_trip_witness :
  exists st0 st,
    Lines_init sample_palette (One sample_source) PNone = Ok st0 /\
    run [MouseWheel (0, -1)] st0 = Ok st /\
    exists st',
      run ([MouseWheel (0, 1); MouseWheel (0, 2)]
           ++ [MouseWheel (0, -1); MouseWheel (0, -3)]) st = Ok st' /\
      u_scale (program st') = u_scale (program st).
Proof.
  eexists; eexists. split; [reflexivity|]. split; [reflexivity|].
  apply (wheel_round_trip sample_palette (One sample_source) PNone _ _
           [MouseWheel (0, -1)]
           [MouseWheel (0, 1); MouseWheel (0, 2)]
           [MouseWheel (0, -1); MouseWheel (0, -3)] eq_refl eq_refl).
  - repeat (apply Forall_cons; [simpl; lra|]). apply Forall_nil.
  - repeat (apply Forall_cons; [simpl; lra|]). apply Forall_nil.
  - reflexivity.
Defined.

(** ** The scale as the uniform stores it *)

Lemma ln2_pos : 0 < ln 2.
Proof. rewrite <- ln_1. apply ln_increasing; lra. Qed.

Lemma pow2_exp (e : Z) : powerRZ 2 e = exp (IZR e * ln 2).
Proof. rewrite powerRZ_Rpower by lra. reflexivity. Qed.

Lemma pow2_le (e e' : Z) : (e <= e')%Z -> powerRZ 2 e <= powerRZ 2 e'.
Proof.
  intros H. rewrite !pow2_exp. pose proof ln2_pos. apply IZR_le in H.
  destruct (Req_dec (IZR e) (IZR e')) as [->|Hne]; [lra|].
  left. apply exp_increasing. nra.
Qed.

Lemma pow2_lt_inv (e e' : Z) : powerRZ 2 e < powerRZ 2 e' -> (e < e')%Z.
Proof.
  rewrite !pow2_exp. intros H. apply exp_lt_inv in H.
  pose proof ln2_pos. apply lt_IZR. nra.
Qed.

Lemma pow2_split (e : Z) :
  powerRZ 2 e = 8388608 * powerRZ 2 (e - 23).
Proof.
  replace e with (23 + (e - 23))%Z at 1 by lia.
  rewrite powerRZ_add by lra. f_equal. simpl. lra.
Qed.

(** The exponent of a number of the normal range brackets it. *)
Lemma exponent_unique (x : R) (e : Z) :
  (- 126 <= e)%Z ->
  powerRZ 2 e <= x < powerRZ 2 (e + 1) ->
  exponent x = e.
Proof.
  intros He [Hlo Hhi]. pose proof ln2_pos as H2.
  assert (Hx : 0 < x).
  { apply Rlt_le_trans with (powerRZ 2 e);
      [apply powerRZ_lt; lra | exact Hlo]. }
  unfold exponent. rewrite Rabs_pos_eq by lra.
  assert (Hip : Int_part (ln x / ln 2) = e).
  { symmetry. apply Int_part_spec.
    rewrite !pow2_exp in *. rewrite plus_IZR in Hhi.
    assert (Hl1 : IZR e * ln 2 <= ln x).
    { rewrite <- (ln_exp (IZR e * ln 2)).
      destruct Hlo as [Hlt | <-]; [left; apply ln_increasing; auto|right; auto].
      apply exp_pos. }
    assert (Hl2 : ln x < (IZR e + 1) * ln 2).
    { rewrite <- (ln_exp ((IZR e + 1) * ln 2)). now apply ln_increasing. }
    split.
    - apply (Rmult_lt_reg_r (ln 2)); [exact H2|].
      unfold Rdiv. rewrite Rmult_minus_distr_r, Rmult_assoc, Rinv_l by lra.
      lra.
    - apply (Rmult_le_reg_r (ln 2)); [exact H2|].
      unfold Rdiv. rewrite Rmult_assoc, Rinv_l by lra. lra. }
  rewrite Hip. lia.
Qed.

Lemma exponent_spec (x : R) :
  powerRZ 2 (- 126) <= x ->
  (- 126 <= exponent x)%Z /\
  powerRZ 2 (exponent x) <= x < powerRZ 2 (exponent x + 1).
Proof.
  intros Hlo. pose proof ln2_pos as H2.
  assert (Hx : 0 < x).
  { apply Rlt_le_trans with (powerRZ 2 (- 126));
      [apply powerRZ_lt; lra | exact Hlo]. }
  unfold exponent. rewrite Rabs_pos_eq by lra.
  set (L := ln x / ln 2).
  assert (HL : L * ln 2 = ln x) by (unfold L; field; lra).
  destruct (base_Int_part L) as [H1 H3].
  split; [lia|].
  assert (Hmax : Z.max (- 126) (Int_part L) = Int_part L).
  { apply Z.max_r. apply Z.lt_succ_r, lt_IZR. rewrite succ_IZR.
    rewrite pow2_exp in Hlo.
    assert (IZR (- 126) * ln 2 <= ln x).
    { rewrite <- (ln_exp (IZR (- 126) * ln 2)).
      destruct Hlo as [Hlt | <-];
        [left; apply ln_increasing; auto; apply exp_pos | right; auto]. }
    assert (IZR (- 126) <= L).
    { apply (Rmult_le_reg_r (ln 2)); [exact H2 | lra]. }
    lra. }
  assert (Hxe : exp (L * ln 2) = x) by (rewrite HL; now apply exp_ln).
  rewrite Hmax, !pow2_exp, plus_IZR. split.
  - rewrite <- Hxe.
    destruct (Req_dec (IZR (Int_part L)) L) as [Heq|Hne]; [rewrite Heq; lra|].
    left. apply exp_increasing. nra.
  - rewrite <- Hxe. apply exp_increasing. nra.
Qed.

Lemma round_nearest_ge (t : R) (n : Z) :
  IZR n <= t -> (n <= round_nearest t)%Z.
Proof.
  intros H. destruct (base_Int_part t) as [H1 H2].
  assert (Hn : (n <= Int_part t)%Z).
  { apply Z.lt_succ_r, lt_IZR. rewrite succ_IZR. lra. }
  unfold round_nearest.
  destruct (Rlt_dec _ _); [exact Hn|].
  destruct (Rlt_dec _ _); [lia|]. destruct (Z.even _); lia.
Qed.

(** A number of the normal range is stored no lower than the power of
    two below it. *)
Lemma float32_lower (x : R) :
  powerRZ 2 (- 126) <= x -> powerRZ 2 (exponent x) <= float32 x.
Proof.
  intros Hlo. destruct (exponent_spec x Hlo) as [_ [He _]].
  unfold float32. set (e := exponent x) in *.
  assert (Hu : 0 < powerRZ 2 (e - 23)) by (apply powerRZ_lt; lra).
  rewrite (pow2_split e) in He |- *.
  apply Rmult_le_compat_r; [lra|].
  apply IZR_le, round_nearest_ge.
  apply (Rmult_le_reg_r (powerRZ 2 (e - 23))); [exact Hu|].
  unfold Rdiv. rewrite Rmult_assoc, Rinv_l by lra. lra.
Qed.

Lemma pow2_m7 : powerRZ 2 (- 7) = / 128.
Proof. simpl. f_equal. lra. Qed.

Lemma pow2_m6 : powerRZ 2 (- 6) = / 64.
Proof. simpl. f_equal. lra. Qed.

Lemma pow2_m30 : powerRZ 2 (- 30) = / 1073741824.
Proof. simpl. f_equal. lra. Qed.

Lemma exponent_hundredth : exponent 0.01 = (- 7)%Z.
Proof.
  apply exponent_unique; [lia|].
  change (- 7 + 1)%Z with (- 6)%Z. rewrite pow2_m7, pow2_m6. lra.
Qed.

(** The float32 of 0.01 is 10737418 / 2^30, a little below 0.01. *)
Lemma float32_hundredth : float32 0.01 = 10737418 / 1073741824.
Proof.
  unfold float32. rewrite exponent_hundredth.
  change (- 7 - 23)%Z with (- 30)%Z. rewrite pow2_m30.
  assert (Hr : round_nearest (0.01 / / 1073741824) = 10737418%Z).
  { assert (Hv : 0.01 / / 1073741824 = 10737418 + 0.24)
      by (unfold Rdiv; rewrite Rinv_inv; lra).
    assert (Hip : Int_part (0.01 / / 1073741824) = 10737418%Z).
    { symmetry. apply Int_part_spec. rewrite Hv. lra. }
    unfold round_nearest, frac_part. rewrite Hip, Hv.
    destruct (Rlt_dec _ _) as [_|H]; [reflexivity | lra]. }
  rewrite Hr. reflexivity.
Qed.

(** Nothing at or above 0.01 is stored below the float32 of 0.01. *)
Lemma float32_floor (y : R) : 0.01 <= y -> float32 0.01 <= float32 y.
Proof.
  intros Hy. rewrite float32_hundredth.
  assert (Hlo : powerRZ 2 (- 126) <= y).
  { apply Rle_trans with (powerRZ 2 (- 7));
      [apply pow2_le; lia | rewrite pow2_m7; lra]. }
  destruct (exponent_spec y Hlo) as [_ [He1 He2]].
  assert (He : (- 7 <= exponent y)%Z).
  { apply Z.lt_succ_r, pow2_lt_inv.
    change (Z.succ (exponent y)) with (exponent y + 1)%Z.
    rewrite pow2_m7. lra. }
  destruct (Z.eq_dec (exponent y) (- 7)) as [E|E].
  - unfold float32. rewrite E.
    change (- 7 - 23)%Z with (- 30)%Z. rewrite pow2_m30.
    unfold Rdiv at 1. apply Rmult_le_compat_r; [lra|].
    apply IZR_le, round_nearest_ge.
    unfold Rdiv. rewrite Rinv_inv. lra.
  - apply Rle_trans with (powerRZ 2 (exponent y));
      [|now apply float32_lower].
    apply Rle_trans with (powerRZ 2 (- 6));
      [rewrite pow2_m6; lra | apply pow2_le; lia].
Qed.

(** Nothing at or above 1 is stored below 1. *)
Lemma float32_one (x : R) : 1 <= x -> 1 <= float32 x.
Proof.
  intros Hx.
  assert (Hlo : powerRZ 2 (- 126) <= x).
  { apply Rle_trans with (powerRZ 2 0); [apply pow2_le; lia | simpl; lra]. }
  destruct (exponent_spec x Hlo) as [_ [He1 He2]].
  assert (He : (0 <= exponent x)%Z).
  { apply Z.lt_succ_r, pow2_lt_inv.
    change (Z.succ (exponent x)) with (exponent x + 1)%Z. simpl. lra. }
  apply Rle_trans with (powerRZ 2 (exponent x)); [|now apply float32_lower].
  change 1 with (powerRZ 2 0). apply pow2_le. exact He.
Qed.

Lemma exp_10 : exp (- (0.1 * INR 100)) < 0.01.
Proof.
  assert (H1 : 1 + 1.25 < exp 1.25) by (apply exp_ineq1; lra).
  assert (H2 : exp 2.5 = exp 1.25 * exp 1.25).
  { rewrite <- exp_plus. f_equal. lra. }
  assert (H3 : exp 5 = exp 2.5 * exp 2.5).
  { rewrite <- exp_plus. f_equal. lra. }
  assert (H4 : exp 10 = exp 5 * exp 5).
  { rewrite <- exp_plus. f_equal. lra. }
  assert (H5 : 5 < exp 2.5) by nra.
  assert (H6 : 25 < exp 5) by nra.
  assert (H7 : 100 < exp 10) by nra.
  replace (0.1 * INR 100) with 10 by (simpl; lra).
  rewrite exp_Ropp.
  apply (Rmult_lt_reg_r (exp 10)); [lra|].
  rewrite Rinv_l by lra. lra.
Qed.

(** [k] turns of the wheel downwards multiply the amplitude scale by
    exp(-0.1 k), down to the floor of 0.01. *)
Lemma wheel_downs_floor (k : nat) : forall st : Lines,
  1 <= time_scale st -> 0.01 <= amplitude_scale st ->
  exists st',
    run (repeat (MouseWheel (0, -1)) k) st = Ok st' /\
    amplitude_scale st'
    = Rmax 0.01 (amplitude_scale st * exp (- (0.1 * INR k))).
Proof.
  induction k as [|k IH]; intros st Ht Ha.
  - exists st. split; [reflexivity|].
    replace (- (0.1 * INR 0)) with 0 by (simpl; lra).
    rewrite exp_0, Rmult_1_r. symmetry. now apply Rmax_right.
  - destruct (wheel_step (0, -1) st Ht) as [st1 [Hw [Hts [Has _]]]].
    cbn [snd] in Has. rewrite (sign_neg (-1)) in Has by lra.
    destruct (IH st1) as [st' [Hrun Hamp]];
      [lra | rewrite Has; apply Rmax_l|].
    exists st'. cbn [repeat run handle]. rewrite Hw. cbn [bind].
    split; [exact Hrun|]. rewrite Hamp, Has, S_INR.
    set (a := amplitude_scale st) in *.
    replace (- (0.1 * (INR k + 1))) with (0.1 * -1 + - (0.1 * INR k)) by lra.
    rewrite exp_plus.
    set (c := exp (0.1 * -1)). set (c' := exp (- (0.1 * INR k))).
    assert (Hc : 0 < c) by apply exp_pos.
    assert (Hc' : 0 < c' <= 1).
    { split; [apply exp_pos|].
      destruct k as [|k].
      - unfold c'. replace (- (0.1 * INR 0)) with 0 by (simpl; lra).
        rewrite exp_0. lra.
      - left. apply exp_lt_1. pose proof (pos_INR k). rewrite S_INR. lra. }
    unfold Rmax at 2. destruct (Rle_dec 0.01 (a * c)) as [H|H].
    + now rewrite Rmult_assoc.
    + assert (H1 : 0.01 * c' <= 0.01) by nra.
      assert (H2 : a * (c * c') <= 0.01).
      { assert (a * c * c' <= a * c * 1)
          by (apply Rmult_le_compat_l; nra).
        nra. }
      now rewrite (Rmax_left _ _ H1), (Rmax_left _ _ H2).
Qed.

(** C6, as the claim states it, fails: after 100 turns of the wheel
    downwards from the freshly constructed plotter the amplitude scale
    is floored at 0.01, and the uniform, which stores it as float32,
    holds 10737418 / 2^30, which is below 0.01. *)
Lemma stored_amplitude_below :
  exists st0,
    Lines_init sample_palette (One sample_source) PNone = Ok st0 /\
    Forall scale_event (repeat (MouseWheel (0, -1)) 100) /\
    exists st,
      run (repeat (MouseWheel (0, -1)) 100) st0 = Ok st /\
      snd (stored_scale st) = 10737418 / 1073741824 /\
      snd (stored_scale st) < 0.01.
Proof.
  eexists. split; [reflexivity|].
  split; [apply Forall_forall; intros e He;
          apply repeat_spec in He as ->; exact I|].
  match goal with
  | |- exists st, run _ ?s = _ /\ _ =>
      destruct (wheel_downs_floor 100 s) as [st [Hrun Hamp]];
      [unfold time_scale; cbn; lra | unfold amplitude_scale; cbn; lra|]
  end.
  exists st. split; [exact Hrun|].
  assert (Ha : amplitude_scale st = 0.01).
  { rewrite Hamp. unfold amplitude_scale at 1; cbn [snd u_scale program
      _set_program_params].
    apply Rmax_left. pose proof exp_10. lra. }
  unfold stored_scale; cbn [snd]. rewrite Ha, float32_hundredth.
  split; [reflexivity | lra].
Qed.

(** C6 (amended): after every sequence of '+' and '-' key presses and
    wheel events applied to a constructed plotter, the time-axis scale
    the uniform holds is at least 1 and the amplitude-axis scale it
    holds is at least the float32 of 0.01, which is 10737418 / 2^30
    (about 0.0099999998): each event floors its result at 1 and at
    0.01, and the uniform stores the result as float32. *)
Theorem scales_floored
  (cp : string -> nat -> list value) (d : data_arg) (pp : value)
  (st0 : Lines) (es : list event)
  (Hinit : Lines_init cp d pp = Ok st0)
  (Hes : Forall scale_event es) :
  exists st, run es st0 = Ok st /\
             1 <= fst (stored_scale st) /\
             float32 0.01 <= snd (stored_scale st) /\
             float32 0.01 = 10737418 / 1073741824.
Proof.
  destruct (scale_events_floor cp d pp st0 es Hinit Hes)
    as [st [Hrun [Ht Ha]]].
  exists st. split; [exact Hrun|]. unfold stored_scale; cbn [fst snd].
  split; [now apply float32_one|].
  split; [now apply float32_floor | apply float32_hundredth].
Qed.

Lemma scales_floored_witness :
  exists st0,
    Lines_init sample_palette (One sample_source) PNone = Ok st0 /\
    exists st,
      run [MouseWheel (0, -1); KeyPress "-"; MouseWheel (0, -1)] st0 = Ok st /\
      1 <= fst (stored_scale st) /\
      float32 0.01 <= snd (stored_scale st) /\
      float32 0.01 = 10737418 / 1073741824.
Proof.
  eexists. split; [reflexivity|].
  apply (scales_floored sample_palette (One sample_source) PNone _
           [MouseWheel (0, -1); KeyPress "-"; MouseWheel (0, -1)] eq_refl).
  repeat (apply Forall_cons; [simpl; auto|]). apply Forall_nil.
Defined.

(** ** Further properties: the quality category *)

Lemma tanh_monotone (x y : R) : x <= y -> tanh x <= tanh y.
Proof.
  intros Hxy.
  pose proof (tanh_exp x) as Hx. pose proof (tanh_exp y) as Hy.
  pose proof (exp_pos x) as Ha. pose proof (exp_pos (- x)) as Hb.
  pose proof (exp_pos y) as Hc. pose proof (exp_pos (- y)) as Hd.
  assert (Hac : exp x <= exp y).
  { destruct Hxy as [Hlt | ->];
      [left; now apply exp_increasing | right; auto]. }
  assert (Hdb : exp (- y) <= exp (- x)).
  { destruct Hxy as [Hlt | ->];
      [left; apply exp_increasing; lra | right; auto]. }
  remember (exp x) as a. remember (exp (- x)) as b.
  remember (exp y) as c. remember (exp (- y)) as e.
  remember (tanh x) as t. remember (tanh y) as u.
  destruct (Rle_dec t u) as [H|H]; [exact H | exfalso].
  assert (Ht : u < t) by lra.
  assert (H1 : u * ((a + b) * (c + e)) < t * ((a + b) * (c + e))).
  { apply Rmult_lt_compat_r; [|exact Ht].
    apply Rmult_lt_0_compat; lra. }
  assert (H2 : t * ((a + b) * (c + e)) = (a - b) * (c + e)).
  { rewrite <- Hx. ring. }
  assert (H3 : u * ((a + b) * (c + e)) = (c - e) * (a + b)).
  { rewrite <- Hy. ring. }
  assert (H4 : a * e <= b * c).
  { apply Rle_trans with (c * e).
    - apply Rmult_le_compat_r; lra.
    - rewrite (Rmult_comm b c). apply Rmult_le_compat_l; lra. }
  nra.
Qed.

Lemma tanh_sign (x : R) : 0 <= tanh x <-> 0 <= x.
Proof.
  pose proof (tanh_exp x) as Hx.
  pose proof (exp_pos x) as Ha. pose proof (exp_pos (- x)) as Hb.
  split; intros H.
  - destruct (Rle_dec 0 x) as [H0|H0]; [exact H0 | exfalso].
    assert (exp x < exp (- x)) by (apply exp_increasing; lra).
    assert (0 <= tanh x * (exp x + exp (- x)))
      by (apply Rmult_le_pos; lra).
    lra.
  - assert (exp (- x) <= exp x).
    { destruct H as [H | <-]; [left; apply exp_increasing; lra|].
      right. f_equal. lra. }
    destruct (Rle_dec 0 (tanh x)) as [H1|H1]; [exact H1 | exfalso].
    assert (tanh x * (exp x + exp (- x)) < 0).
    { rewrite <- (Rmult_0_l (exp x + exp (- x))).
      apply Rmult_lt_compat_r; lra. }
    lra.
Qed.

Lemma Int_part_monotone (x y : R) : x <= y -> (Int_part x <= Int_part y)%Z.
Proof.
  intros Hxy.
  destruct (base_Int_part x) as [Hx _]. destruct (base_Int_part y) as [_ Hy].
  apply Z.lt_succ_r, lt_IZR. rewrite succ_IZR. lra.
Qed.

(** X8: a noisier channel never gets a lower category, and the
    category reaches 5, the middle of the palette, exactly from a
    standard deviation of 30. *)
Theorem category_monotone (sd sd' : R) (Hle : sd <= sd') :
  (quality_category sd <= quality_category sd')%Z /\
  ((5 <= quality_category sd)%Z <-> 30 <= sd).
Proof.
  pose proof (quality_category_range sd) as Hr.
  destruct (Rle_dec 304 sd) as [Hsat|Hlow].
  { rewrite (quality_category_saturated sd Hsat),
      (quality_category_saturated sd') by lra.
    split; [lia|]. split; intros _; [lra | lia]. }
  destruct (quality_category_below sd) as [Heq _]; [lra|].
  split.
  - destruct (Rle_dec 304 sd') as [Hsat'|Hlow'].
    + rewrite (quality_category_saturated sd' Hsat'). lia.
    + destruct (quality_category_below sd') as [Heq' _]; [lra|].
      rewrite Heq, Heq'.
      apply Int_part_monotone. unfold quality_value.
      assert (tanh ((sd - 30) / 15) <= tanh ((sd' - 30) / 15))
        by (apply tanh_monotone; lra).
      lra.
  - rewrite Heq.
    pose proof (tanh_sign ((sd - 30) / 15)) as Hs.
    destruct (base_Int_part (quality_value sd)) as [H1 H2].
    unfold quality_value in *. split; intros H.
    + apply IZR_le in H.
      assert (0 <= tanh ((sd - 30) / 15)) by lra.
      apply Hs in H0. lra.
    + assert (0 <= tanh ((sd - 30) / 15)) by (apply Hs; lra).
      apply Z.lt_succ_r, lt_IZR. rewrite succ_IZR. simpl. lra.
Qed.

Lemma category_monotone_witness :
  (quality_category 10 <= quality_category 45)%Z /\
  ((5 <= quality_category 10)%Z <-> 30 <= 10).
Proof.
  apply (category_monotone 10 45). lra.
Defined.

(** A deviation of zero falls in category 0. *)
Lemma quality_category_zero : quality_category 0 = 0%Z.
Proof.
  rewrite (proj1 (quality_category_below 0 ltac:(lra))).
  symmetry. apply Int_part_spec.
  pose proof (quality_value_bounds 0) as Hv. simpl.
  split; [|lra].
  unfold quality_value in *.
  replace ((0 - 30) / 15) with (Ropp 2) in * by lra.
  pose proof (tanh_exp (Ropp 2)) as Ht.
  assert (Hb : 1 + 2 < exp (Ropp (Ropp 2))).
  { rewrite Ropp_involutive. apply exp_ineq1. lra. }
  assert (Hab : exp (Ropp 2) * exp (Ropp (Ropp 2)) = 1).
  { rewrite <- exp_plus, Rplus_opp_r. apply exp_0. }
  pose proof (exp_pos (Ropp 2)) as Ha.
  remember (exp (Ropp 2)) as a. remember (exp (Ropp (Ropp 2))) as b.
  remember (tanh (Ropp 2)) as t.
  assert (Ha3 : a < 1 / 3).
  { assert (0 < a * (b - 3)) by (apply Rmult_lt_0_compat; lra). lra. }
  destruct (Rlt_dec t (- 0.8)) as [H|H]; [lra | exfalso].
  assert (- 0.8 * (a + b) <= t * (a + b))
    by (apply Rmult_le_compat_r; lra).
  lra.
Qed.

(** ** Further properties: a frame *)

(** X9: a frame writes the amplitudes and the labels' readings and
    nothing else.  When [update_plot] reaches its end, the sources, the
    cycle and the active source, the line and point counts, the
    parameters, the scale uniform, the index and colour buffers and the
    size uniforms are as before, every name label has kept its text,
    and no label was added or dropped. *)
Theorem frame_leaves_rest
  (m : Np.matrix) (st st' : Lines)
  (Hupd : update_plot m st = Ok st') :
  same_frame st st' /\
  _cycle st' = _cycle st /\ _data st' = _data st /\
  length (_names st') = length (_names st) /\
  u_scale (program st') = u_scale (program st) /\
  a_index (program st') = a_index (program st) /\
  a_color (program st') = a_color (program st) /\
  u_size (program st') = u_size (program st) /\
  u_n (program st') = u_n (program st).
Proof.
  destruct (update_plot_inv m st st' Hupd) as [s [ns [qs [_ [Hloop ->]]]]].
  destruct (for_each_labels_keeps _ _ _ _ _ _ _ _ Hloop) as [Ht [Hn Hq]].
  unfold same_frame; cbn. auto 15.
Qed.

Lemma frame_leaves_rest_witness :
  exists st0,
    Lines_init sample_palette (One sample_source) PNone = Ok st0 /\
    exists st1,
      update_plot sample_snapshot st0 = Ok st1 /\
      same_frame st0 st1 /\
      u_scale (program st1) = u_scale (program st0).
Proof.
  eexists. split; [reflexivity|].
  assert (Hwf : Np.well_formed sample_snapshot) by (repeat constructor).
  match goal with
  | |- exists st1, update_plot _ ?s = _ /\ _ =>
      destruct (sample_ready s eq_refl) as [Hr _];
      destruct (update_plot_succeeds sample_snapshot s Hr Hwf eq_refl)
        as [st1 [Hupd _]];
      exists st1; split; [exact Hupd|];
      destruct (frame_leaves_rest sample_snapshot s st1 Hupd)
        as [H1 [_ [_ [_ [H2 _]]]]];
      split; [exact H1 | exact H2]
  end.
Defined.

Lemma index_out {A} (l : list A) (i : nat) :
  (length l <= i)%nat ->
  index l (Z.of_nat i) = Raise (IndexError "list index out of range").
Proof.
  intros Hi. unfold index.
  destruct (Z.ltb_spec (Z.of_nat i) 0); [lia|].
  destruct (Z.leb_spec 0 (Z.of_nat i)); [|lia].
  destruct (Z.ltb_spec (Z.of_nat i) (Z.of_nat (length l))); [lia|].
  reflexivity.
Qed.

Lemma for_each_app {S} (ls ls' : list nat) (body : nat -> S -> result S)
  (s : S) :
  for_each (ls ++ ls') body s = (s' <- for_each ls body s ;;
                                 for_each ls' body s').
Proof.
  revert s. induction ls as [|l ls IH]; intros s; simpl; [reflexivity|].
  destruct (body l s) as [s1|]; simpl; [apply IH | reflexivity].
Qed.

(** X10: a snapshot that lacks a channel stops the frame.  On a
    plotter that is ready for a frame (in particular, with a quality
    palette whose colours the labels take), a snapshot with fewer
    channel columns than the plotter has lines makes [update_plot]
    leave with an IndexError, raised where the loop over the labels
    reads the deviation of the first missing channel; the vertex
    buffer is not written. *)
Theorem frame_missing_channel
  (m : Np.matrix) (st : Lines)
  (Hready : ready st)
  (Hcols : (Np.ncols m - 1 < _n_lines st)%nat) :
  exists msg, update_plot m st = Raise (IndexError msg).
Proof.
  destruct (ready_scale st Hready) as [Hs _].
  destruct (ready_palette st Hready) as [Hp [Hl Hc]].
  destruct Hready as [_ [_ [Hn Hq]]].
  set (k := (Np.ncols m - 1)%nat) in *.
  set (sd := frame_sd m (scale_of st)).
  assert (Hsd : length sd = k) by apply length_frame_sd.
  destruct (labels_loop (params st) (quality_palette_of st) sd Hp Hl Hc
              k 0%nat (_names st) (_quality st))
    as [names [quality [Hloop _]]]; try (simpl; lia).
  assert (Hfail :
    for_each (seq 0 (_n_lines st))
      (update_labels (params st) sd (map quality_category sd))
      (_names st, _quality st)
    = Raise (IndexError "list index out of range")).
  { replace (_n_lines st) with (k + S (_n_lines st - S k))%nat by lia.
    rewrite seq_app, for_each_app, Hloop. cbn [bind Nat.add seq for_each].
    unfold update_labels. rewrite index_out by lia. reflexivity. }
  unfold update_plot.
  destruct (getitem (params st) "scale") as [v|]; [|discriminate].
  cbn [bind] in Hs |- *. rewrite Hs. cbn [bind].
  fold (plot_data_of m (scale_of st)). fold (frame_sd m (scale_of st)).
  fold sd. rewrite Hfail. eexists. reflexivity.
Qed.

Lemma frame_missing_channel_witness :
  exists st0,
    Lines_init sample_palette (One sample_source) PNone = Ok st0 /\
    exists msg, update_plot narrow_snapshot st0 = Raise (IndexError msg).
Proof.
  eexists. split; [reflexivity|].
  apply (frame_missing_channel narrow_snapshot).
  - exact (proj1 (sample_ready _ eq_refl)).
  - cbn; lia.
Defined.

(** ** Further properties: what the frame computes *)

Lemma sum_map_affine (l : list R) (mu s : R) :
  Np.sum (map (fun x => (x - mu) / s) l)
  = (Np.sum l - INR (length l) * mu) / s.
Proof.
  induction l as [|x l IH].
  - simpl. unfold Rdiv. ring.
  - change (length (x :: l)) with (S (length l)). rewrite S_INR.
    cbn [map Np.sum fold_right]. fold (Np.sum (map (fun x => (x - mu) / s) l)).
    fold (Np.sum l). rewrite IH. unfold Rdiv. ring.
Qed.

Lemma sum_map_scale (l : list R) (k : R) :
  Np.sum (map (fun x => x * k) l) = Np.sum l * k.
Proof.
  induction l as [|x l IH]; simpl; [ring|].
  fold (Np.sum (map (fun x => x * k) l)). fold (Np.sum l). rewrite IH. ring.
Qed.

Lemma INR_length_pos {A} (l : list A) : l <> [] -> 0 < INR (length l).
Proof.
  destruct l; [congruence|]. intros _. apply lt_0_INR. simpl. lia.
Qed.

(** Centering takes the mean away. *)
Lemma sum_centred (l : list R) (s : R) :
  l <> [] -> Np.sum (map (fun x => (x - Np.mean l) / s) l) = 0.
Proof.
  intros Hl. pose proof (INR_length_pos l Hl).
  rewrite sum_map_affine. unfold Np.mean.
  replace (Np.sum l - INR (length l) * (Np.sum l / INR (length l)))
    with 0 by (field; lra).
  unfold Rdiv. ring.
Qed.

Lemma map_nth_seq {A} (l : list A) (d : A) :
  map (fun t => nth t l d) (seq 0 (length l)) = l.
Proof.
  apply nth_ext with (d := d) (d' := d).
  - now rewrite length_map, length_seq.
  - intros n Hn. rewrite length_map, length_seq in Hn.
    now rewrite nth_map_seq.
Qed.

Lemma nth_vertex_spec_channel (m : Np.matrix) (s : R) (c t : nat) :
  (c < Np.ncols m - 1)%nat -> (t < Np.nrows m)%nat ->
  nth (c * Np.nrows m + t) (vertex_spec m s) 0 = nth t (normalised m s c) 0.
Proof.
  intros Hc Ht. unfold vertex_spec. rewrite flat_map_concat_map.
  rewrite (nth_concat_uniform _ (Np.nrows m)); [| |exact Ht].
  - now rewrite (nth_map_seq (normalised m s)).
  - apply Forall_map, Forall_forall. intros j _. apply length_normalised.
Qed.

Lemma update_plot_buffer (m : Np.matrix) (st st' : Lines) :
  Np.well_formed m -> update_plot m st = Ok st' ->
  a_position (program st') = vertex_spec m (scale_of st).
Proof.
  intros Hwf Hupd.
  destruct (update_plot_inv m st st' Hupd) as [s [ns [qs [Hs [_ ->]]]]].
  assert (Hsc : scale_of st = s) by (unfold scale_of; now rewrite Hs).
  cbn. rewrite Hsc. now apply ravel_transpose.
Qed.

(** X11: every channel is centered.  After a frame over a snapshot
    with at least one row and a scale other than zero, the amplitudes
    of each channel in the vertex buffer sum to zero. *)
Theorem channel_amplitudes_centred
  (m : Np.matrix) (st st' : Lines) (c : nat)
  (Hwf : Np.well_formed m)
  (Hrows : (0 < Np.nrows m)%nat)
  (Hscale : scale_of st <> 0)
  (Hupd : update_plot m st = Ok st')
  (Hc : (c < Np.ncols m - 1)%nat) :
  Np.sum (map (fun t => nth (c * Np.nrows m + t)
                          (a_position (program st')) 0)
            (seq 0 (Np.nrows m))) = 0.
Proof.
  rewrite (update_plot_buffer m st st' Hwf Hupd).
  rewrite (map_ext_in _ (fun t => nth t (normalised m (scale_of st) c) 0)).
  - rewrite <- (length_normalised m (scale_of st) c) at 1.
    rewrite map_nth_seq. unfold normalised. apply sum_centred.
    unfold channel, Np.nrows in *. destruct (Np.rows m); simpl in *;
      [lia | discriminate].
  - intros t Ht. apply in_seq in Ht.
    apply nth_vertex_spec_channel; [exact Hc | lia].
Qed.

Lemma channel_amplitudes_centred_witness :
  exists st0,
    Lines_init sample_palette (One sample_source) PNone = Ok st0 /\
    exists st1,
      update_plot sample_snapshot st0 = Ok st1 /\
      Np.sum (map (fun t => nth (1 * Np.nrows sample_snapshot + t)
                              (a_position (program st1)) 0)
                (seq 0 (Np.nrows sample_snapshot))) = 0.
Proof.
  eexists. split; [reflexivity|].
  assert (Hwf : Np.well_formed sample_snapshot) by (repeat constructor).
  match goal with
  | |- exists st1, update_plot _ ?s = _ /\ _ =>
      destruct (sample_ready s eq_refl) as [Hr Hs];
      destruct (update_plot_succeeds sample_snapshot s Hr Hwf eq_refl)
        as [st1 [Hupd _]];
      exists st1; split; [exact Hupd|];
      apply (channel_amplitudes_centred sample_snapshot s st1 1 Hwf);
      [cbn; lia | rewrite Hs; lra | exact Hupd | cbn; lia]
  end.
Defined.

Lemma mean_map_affine (l : list R) (mu s : R) :
  l <> [] -> s <> 0 ->
  Np.mean (map (fun x => (x - mu) / s) l) = (Np.mean l - mu) / s.
Proof.
  intros Hl Hs. pose proof (INR_length_pos l Hl).
  unfold Np.mean. rewrite sum_map_affine, length_map.
  generalize dependent (INR (length l)). generalize (Np.sum l).
  intros S n Hn. field. lra.
Qed.

(** The deviation of shifted and scaled samples, scaled back. *)
Lemma std_affine (l : list R) (mu s : R) :
  0 < s -> Np.std (map (fun x => (x - mu) / s) l) * s = Np.std l.
Proof.
  intros Hs. destruct l as [|x0 l0] eqn:Hl.
  - unfold Np.std, Np.mean. simpl. unfold Rdiv.
    rewrite !Rmult_0_l, sqrt_0. ring.
  - rewrite <- Hl. assert (Hne : l <> []) by (rewrite Hl; discriminate).
    clear Hl. pose proof (INR_length_pos l Hne) as Hn.
    unfold Np.std at 1. rewrite mean_map_affine by (auto; lra).
    rewrite map_map.
    rewrite (map_ext _ (fun x => Rsqr (Rabs (x - Np.mean l)) * / Rsqr s)).
    2:{ intros x. rewrite <- !Rsqr_abs.
        replace ((x - mu) / s - (Np.mean l - mu) / s)
          with ((x - Np.mean l) / s) by (field; lra).
        rewrite Rsqr_div'. reflexivity. }
    unfold Np.mean at 1.
    rewrite <- (map_map (fun x => Rsqr (Rabs (x - Np.mean l)))
                  (fun y => y * / Rsqr s)), sum_map_scale.
    rewrite !length_map.
    set (V := Np.sum (map (fun x => Rsqr (Rabs (x - Np.mean l))) l)).
    replace (V * / Rsqr s / INR (length l))
      with ((V / INR (length l)) / Rsqr s) by (unfold Rdiv; ring).
    rewrite sqrt_div_alt by (unfold Rsqr; nra).
    rewrite sqrt_Rsqr by lra.
    change (Np.std l)
      with (sqrt (V / INR (length
                     (map (fun x => Rsqr (Rabs (x - Np.mean l))) l)))).
    rewrite length_map. field. lra.
Qed.

(** The deviation the frame shows for a channel is that of its last
    256 samples as they are in the snapshot. *)
Lemma channel_sd_recent (m : Np.matrix) (s : R) (c : nat) :
  0 < s -> channel_sd m s c = Np.std (recent m c).
Proof.
  intros Hs. unfold channel_sd, normalised, recent.
  rewrite skipn_map. apply std_affine. exact Hs.
Qed.



Lemma flat_channel (m : Np.matrix) (r0 : list R) (c : nat) :
  flat m r0 -> Forall (fun x => x = nth (S c) r0 0) (channel m c).
Proof.
  unfold flat, channel. intros H. apply Forall_map.
  eapply Forall_impl; [|exact H]. intros r Hr.
  change (skipn 1 r = skipn 1 r0) in Hr.
  change (nth (S c) r 0 = nth (S c) r0 0).
  rewrite <- (nth_skipn_1 r), <- (nth_skipn_1 r0). now rewrite Hr.
Qed.

Lemma sum_const (l : list R) (a : R) :
  Forall (fun x => x = a) l -> Np.sum l = INR (length l) * a.
Proof.
  induction 1 as [|x l -> _ IH].
  - simpl. ring.
  - change (length (a :: l)) with (S (length l)). rewrite S_INR.
    cbn [Np.sum fold_right]. fold (Np.sum l). rewrite IH. ring.
Qed.

Lemma mean_const (l : list R) (a : R) :
  l <> [] -> Forall (fun x => x = a) l -> Np.mean l = a.
Proof.
  intros Hl Ha. pose proof (INR_length_pos l Hl).
  unfold Np.mean. rewrite (sum_const l a Ha). field. lra.
Qed.

(** Samples that do not move have no deviation. *)
Lemma std_const (l : list R) (a : R) :
  Forall (fun x => x = a) l -> Np.std l = 0.
Proof.
  intros Ha. unfold Np.std.
  assert (Hz : Np.sum (map (fun x => Rsqr (Rabs (x - Np.mean l))) l) = 0).
  { destruct l as [|x l]; [reflexivity|].
    rewrite (sum_const _ 0); [ring|].
    apply Forall_map. rewrite (mean_const _ a) by (auto; discriminate).
    eapply Forall_impl; [|exact Ha]. cbn. intros y ->.
    unfold Rminus. rewrite Rplus_opp_r, Rabs_R0. apply Rsqr_0. }
  unfold Np.mean at 1. rewrite Hz. unfold Rdiv. rewrite Rmult_0_l.
  apply sqrt_0.
Qed.

Lemma Forall_skipn {A} (P : A -> Prop) (k : nat) (l : list A) :
  Forall P l -> Forall P (skipn k l).
Proof.
  intros H. rewrite <- (firstn_skipn k l) in H.
  now apply Forall_app in H.
Qed.

(** X13: a signal that does not move. After a frame of a plotter that is
    ready for it (a quality palette of 11 colours with channels between
    0 and 1 among the rest), with a positive scale, over a snapshot in
    which every row carries the same channel values, the vertex buffer
    holds only zeros, every quality label shows a deviation of 0 and
    both labels of every line are in category 0: the first colour of the
    quality palette and a font size of 12. *)
Theorem flat_signal
  (m : Np.matrix) (st : Lines) (r0 : list R)
  (Hready : ready st)
  (Hpos : 0 < scale_of st)
  (Hwf : Np.well_formed m)
  (Hcols : Np.ncols m = S (_n_lines st))
  (Hrows : (0 < Np.nrows m)%nat)
  (Hflat : flat m r0) :
  exists st',
    update_plot m st = Ok st' /\
    Forall (fun x => x = 0) (a_position (program st')) /\
    forall l, (l < _n_lines st)%nat ->
      exists name quality,
        nth_error (_names st') l = Some name /\
        nth_error (_quality st') l = Some quality /\
        text quality = Fixed2 0 /\
        color quality = nth 0 (quality_palette_of st) PNone /\
        font_size quality = 12%Z /\
        color name = nth 0 (quality_palette_of st) PNone /\
        font_size name = 12%Z.
Proof.
  destruct (update_plot_succeeds m st Hready Hwf Hcols)
    as [st' [Hupd [Hbuf [_ [_ [_ [_ Hlab]]]]]]].
  exists st'. split; [exact Hupd|]. split.
  - rewrite Hbuf. unfold vertex_spec. apply Forall_forall.
    intros x Hx. apply in_flat_map in Hx as [c [_ Hx]].
    unfold normalised in Hx. apply in_map_iff in Hx as [y [<- Hy]].
    pose proof (flat_channel m r0 c Hflat) as Hc.
    assert (Hne : channel m c <> []).
    { unfold channel, Np.nrows in *. destruct (Np.rows m); simpl in *;
        [lia | discriminate]. }
    rewrite (mean_const _ _ Hne Hc).
    rewrite Forall_forall in Hc. rewrite (Hc y Hy).
    unfold Rminus, Rdiv. rewrite Rplus_opp_r. ring.
  - intros l Hl.
    destruct (Hlab l Hl) as [n [q [_ [_ [Hn' Hq']]]]].
    assert (Hsd : channel_sd m (scale_of st) (_n_lines st - S l) = 0).
    { rewrite (channel_sd_recent m _ _ Hpos). unfold recent.
      apply (std_const _ (nth (S (_n_lines st - S l)) r0 0)).
      apply Forall_skipn, flat_channel, Hflat. }
    rewrite Hsd in Hn', Hq'.
    eexists; eexists. split; [exact Hn'|]. split; [exact Hq'|].
    cbn. rewrite quality_category_zero. cbn. auto.
Qed.

Lemma flat_signal_witness :
  exists st0,
    Lines_init sample_palette (One sample_source) PNone = Ok st0 /\
    exists st',
      update_plot flat_snapshot st0 = Ok st' /\
      Forall (fun x => x = 0) (a_position (program st')).
Proof.
  eexists. split; [reflexivity|].
  match goal with
  | |- exists st', update_plot _ ?s = _ /\ _ =>
      destruct (flat_signal flat_snapshot s [0; 7; 4])
        as [st' [H1 [H2 _]]];
      [ exact (proj1 (sample_ready s eq_refl))
      | unfold scale_of; cbn; lra
      | repeat constructor
      | reflexivity
      | cbn; lia
      | repeat constructor
      | exists st'; split; [exact H1 | exact H2] ]
  end.
Defined.

(** ** Further properties: the layout of the labels *)

Lemma place_labels_ok {A} (labels : list A) (x : R) (size : R * R)
  (n : nat) : forall l0 : nat,
  n <> 0%nat ->
  place_labels labels l0 x size n
  = Some (map (fun l => (fst size * x,
                         ((INR l + 0.5) / INR n) * snd size))
            (seq l0 (length labels))).
Proof.
  intros l0 Hn. revert l0.
  induction labels as [|a labels IH]; intros l0; [reflexivity|].
  cbn [place_labels length seq map].
  destruct (Nat.eqb_spec n 0) as [H0|_]; [contradiction|].
  now rewrite IH.
Qed.

Lemma place_labels_none {A} (labels : list A) (x : R) (size : R * R)
  (l0 : nat) :
  labels <> [] -> place_labels labels l0 x size 0 = None.
Proof. destruct labels; [congruence | reflexivity]. Qed.

(** X14: where a resize puts the labels.  On a plotter with at least
    one line and a label pair for each, a resize to a canvas of
    positive height puts the name label of line [l] at 0.025 of the
    width and its quality label at 0.975 of the width, both at the same
    height, which is the middle of the [l]-th of [n] equal strips of
    the canvas and so inside the canvas; the viewport becomes the
    physical size. *)
Theorem labels_placed
  (st : Lines) (size physical_size : R * R) (l : nat)
  (Hh : 0 < snd size)
  (Hl : (l < _n_lines st)%nat)
  (Hnames : (_n_lines st <= length (_names st))%nat)
  (Hquality : (_n_lines st <= length (_quality st))%nat) :
  let strip := snd size / INR (_n_lines st) in
  exists lay pn pq,
    on_resize size physical_size st = Placed lay /\
    viewport lay = (0, 0, fst physical_size, snd physical_size) /\
    length (names_pos lay) = length (_names st) /\
    length (quality_pos lay) = length (_quality st) /\
    nth_error (names_pos lay) l = Some pn /\
    nth_error (quality_pos lay) l = Some pq /\
    fst pn = fst size * 0.025 /\
    fst pq = fst size * 0.975 /\
    snd pn = snd pq /\
    snd pn = (INR l * strip + (INR l + 1) * strip) / 2 /\
    0 < snd pn < snd size.
Proof.
  intros strip.
  assert (Hn : _n_lines st <> 0%nat) by lia.
  assert (Hpos : 0 < INR (_n_lines st)) by (apply lt_0_INR; lia).
  unfold on_resize. rewrite !place_labels_ok by exact Hn.
  set (f := fun x (k : nat) =>
              (fst size * x,
               ((INR k + 0.5) / INR (_n_lines st)) * snd size)).
  exists {| viewport := (0, 0, fst physical_size, snd physical_size);
            names_pos := map (f 0.025) (seq 0 (length (_names st)));
            quality_pos := map (f 0.975) (seq 0 (length (_quality st))) |}.
  exists (f 0.025 l), (f 0.975 l). cbn [viewport names_pos quality_pos].
  split; [reflexivity|]. split; [reflexivity|].
  split; [now rewrite length_map, length_seq|].
  split; [now rewrite length_map, length_seq|].
  split.
  { rewrite nth_error_map, nth_error_nth' with (d := 0%nat)
      by (rewrite length_seq; lia).
    rewrite seq_nth by lia. reflexivity. }
  split.
  { rewrite nth_error_map, nth_error_nth' with (d := 0%nat)
      by (rewrite length_seq; lia).
    rewrite seq_nth by lia. reflexivity. }
  unfold f, strip; cbn [fst snd].
  split; [reflexivity|]. split; [reflexivity|]. split; [reflexivity|].
  split; [replace (INR l + 0.5) with (INR l + 1 / 2) by lra; field; lra|].
  assert (Hl' : INR l + 1 <= INR (_n_lines st)).
  { rewrite <- S_INR. apply le_INR. lia. }
  pose proof (pos_INR l) as Hl0.
  assert (Hfrac : 0 < (INR l + 0.5) / INR (_n_lines st) < 1).
  { split.
    - apply Rdiv_lt_0_compat; lra.
    - apply (Rmult_lt_reg_r (INR (_n_lines st))); [exact Hpos|].
      unfold Rdiv. rewrite Rmult_assoc, Rinv_l by lra. lra. }
  nra.
Qed.

Lemma labels_placed_witness :
  exists st,
    Lines_init sample_palette (One sample_source) PNone = Ok st /\
    exists lay pn pq,
      on_resize (800, 600) (1600, 1200) st = Placed lay /\
      viewport lay = (0, 0, 1600, 1200) /\
      nth_error (names_pos lay) 1 = Some pn /\
      nth_error (quality_pos lay) 1 = Some pq /\
      snd pn = snd pq /\
      0 < snd pn < 600.
Proof.
  eexists. split; [reflexivity|].
  match goal with
  | |- exists lay np qp, on_resize _ _ ?s = _ /\ _ =>
      destruct (labels_placed s (800, 600) (1600, 1200) 1)
        as [lay [np [qp [H1 [H2 [_ [_ [H3 [H4 [_ [_ [H5 [_ H6]]]]]]]]]]]]];
      [ cbn; lra | cbn; lia | cbn; lia | cbn; lia
      | exists lay, np, qp; auto 10 ]
  end.
Defined.

(** ** Further properties: the keys *)

Lemma on_key_press_other (name : string) (st : Lines) :
  name <> "D"%string -> name <> "+"%string -> name <> "-"%string ->
  on_key_press name st = Ok st.
Proof.
  intros HD Hp Hm. unfold on_key_press.
  destruct (String.eqb_spec name "D"); [contradiction|]. cbn [bind existsb].
  destruct (String.eqb_spec name "+"); [contradiction|].
  destruct (String.eqb_spec name "-"); [contradiction|]. reflexivity.
Qed.

(** X15: what the keys do to the view.  In every state a constructed
    plotter reaches, '-' multiplies the time-axis scale by exp(0.05),
    which raises it, and '+' multiplies it by exp(-0.05) with a floor
    of 1, which never raises it; both store the larger of 1 and the
    amplitude-axis scale as the new amplitude-axis scale, so that one
    is kept exactly when it is at least 1; neither touches the vertex
    buffer, the labels or the active source; and a key other than 'D',
    '+' and '-' changes nothing at all. *)
Theorem key_effect
  (cp : string -> nat -> list value) (d : data_arg) (pp : value)
  (st0 st : Lines) (es : list event) (name : string)
  (Hinit : Lines_init cp d pp = Ok st0)
  (Hrun : run es st0 = Ok st)
  (HD : name <> "D"%string) :
  exists st',
    on_key_press name st = Ok st' /\
    (name = "-"%string ->
     time_scale st' = time_scale st * exp 0.05 /\
     time_scale st < time_scale st') /\
    (name = "+"%string ->
     time_scale st' = Rmax 1 (time_scale st * exp (- 0.05)) /\
     time_scale st' <= time_scale st) /\
    (name = "-"%string \/ name = "+"%string ->
     amplitude_scale st' = Rmax 1 (amplitude_scale st) /\
     (1 <= amplitude_scale st -> amplitude_scale st' = amplitude_scale st)) /\
    (name <> "-"%string -> name <> "+"%string -> st' = st) /\
    a_position (program st') = a_position (program st) /\
    _names st' = _names st /\ _quality st' = _quality st /\
    _data st' = _data st /\ _cycle st' = _cycle st.
Proof.
  destruct (reachable_scales cp d pp es st0 st Hinit Hrun) as [Ht Ha].
  assert (Hup : 1 + 0.05 < exp 0.05) by (apply exp_ineq1; lra).
  pose proof (exp_lt_1 (- 0.05)) as Hdown.
  pose proof (exp_pos (- 0.05)) as Hdown0.
  destruct (String.eqb_spec name "-") as [->|Hm];
    [|destruct (String.eqb_spec name "+") as [->|Hp]].
  - rewrite on_key_press_minus. eexists. split; [reflexivity|].
    unfold time_scale, amplitude_scale in *; cbn.
    split; [intros _; rewrite Rmax_right by nra; split; [reflexivity|nra]|].
    split; [discriminate|].
    split; [intros _; split; [reflexivity | apply Rmax_right]|].
    split; [congruence|]. auto.
  - rewrite on_key_press_plus. eexists. split; [reflexivity|].
    unfold time_scale, amplitude_scale in *; cbn.
    split; [discriminate|].
    split; [intros _; split; [reflexivity | apply Rmax_lub; nra]|].
    split; [intros _; split; [reflexivity | apply Rmax_right]|].
    split; [congruence|]. auto.
  - rewrite (on_key_press_other name st HD Hp Hm).
    exists st. split; [reflexivity|].
    split; [intros; contradiction|]. split; [intros; contradiction|].
    split; [intros [H|H]; contradiction|]. auto 10.
Qed.

Lemma key_effect_witness :
  exists st0 st,
    Lines_init sample_palette (One sample_source) PNone = Ok st0 /\
    run [MouseWheel (0, -1)] st0 = Ok st /\
    exists st',
      on_key_press "-" st = Ok st' /\
      time_scale st' = time_scale st * exp 0.05 /\
      time_scale st < time_scale st'.
Proof.
  eexists; eexists. split; [reflexivity|]. split; [reflexivity|].
  match goal with
  | |- exists st', on_key_press _ ?s = _ /\ _ =>
      destruct (key_effect sample_palette (One sample_source) PNone _ s
                  [MouseWheel (0, -1)] "-" eq_refl eq_refl)
        as [st' [H1 [H2 _]]];
      [discriminate | exists st'; split; [exact H1 | apply H2; reflexivity]]
  end.
Defined.
